(** * Line-reveal testimonial carousel (src/main.js, initLineRevealTestimonials)

    A shallow embedding of the carousel controller: the closure variables
    of one [wraps.forEach] iteration become the fields of a [State]
    record, the inner functions become computations in a small
    state-and-exception monad, and the callbacks handed to the host
    (click and key listeners, the delayed call, the timeline's onComplete,
    ScrollTrigger, matchMedia, SplitText's onSplit) become the events of a
    step function. *)

From Stdlib Require Import ZArith NArith List String Ascii Bool Lia DecimalString.
From Stdlib Require Import DecimalPos.
From stdpp Require Import base option list.
From Equations Require Import Equations.

Local Open Scope Z_scope.

(** ** JavaScript values used by the controller *)

Module Js.

(** A JS string is a sequence of UTF-16 code units. *)
Definition str := list N.

(** An ASCII literal as code units. *)
Definition lit (s : string) : str :=
  List.map N_of_ascii (list_ascii_of_string s).

(** The numbers the controller computes with are integers, NaN apart.
    Negative zero is identified with zero (both are falsy), and an
    integer beyond 2^53 stands for whatever double it rounds to: none
    of that changes whether a value is NaN or zero. *)
Inductive number := NaN | Num (z : Z).

(** [String(n)] for an integer. *)
Definition String_ (z : Z) : string := NilZero.string_of_int (Z.to_int z).

(** StrWhiteSpaceChar: WhiteSpace and LineTerminator code units. *)
Definition isWhiteSpace (c : N) : bool :=
  ((9 <=? c) && (c <=? 13) || (c =? 32) || (c =? 160) || (c =? 5760)
   || (8192 <=? c) && (c <=? 8202) || (c =? 8232) || (c =? 8233)
   || (c =? 8239) || (c =? 8287) || (c =? 12288) || (c =? 65279))%N.

Definition isDigit (c : N) : bool := ((48 <=? c) && (c <=? 57))%N.

Definition plus_sign : N := 43.
Definition minus_sign : N := 45.

Definition isSign (c : N) : bool := ((c =? plus_sign) || (c =? minus_sign))%N.

(** TrimString(inputString, start). *)
Fixpoint trimStart (s : str) : str :=
  match s with
  | c :: r => if isWhiteSpace c then trimStart r else s
  | [] => []
  end.

(** The longest prefix made of radix-10 digits. *)
Fixpoint digitsPrefix (s : str) : str :=
  match s with
  | c :: r => if isDigit c then c :: digitsPrefix r else []
  | [] => []
  end.

Definition mathInt (ds : str) : Z :=
  fold_left (fun acc d => 10 * acc + (Z.of_N d - 48)) ds 0.

(** [parseInt(string, 10)] after ToString, following ECMA-262:
    trim leading white space, read one optional sign, take the digits
    that follow; no digit gives NaN. Radix 10 strips no "0x" prefix. *)
Definition parseInt (input : str) : number :=
  let S := trimStart input in
  let sign := match S with
              | c :: _ => if (c =? minus_sign)%N then -1 else 1
              | [] => 1
              end in
  let S' := match S with
            | c :: r => if isSign c then r else S
            | [] => []
            end in
  match digitsPrefix S' with
  | [] => NaN
  | ds => Num (sign * mathInt ds)
  end.

(** ToString of what [getAttribute] returns: a string, or null. *)
Definition ToString_attr (a : option str) : str :=
  match a with
  | Some s => s
  | None => lit "null"
  end.

(** [n || d] on numbers: NaN and 0 are falsy. *)
Definition or_default (n : number) (d : Z) : Z :=
  match n with
  | NaN => d
  | Num z => if z =? 0 then d else z
  end.

(** [slides[i]]: undefined ([None]) outside the array. *)
Definition index {A} (l : list A) (i : Z) : option A :=
  if 0 <=? i then l !! Z.to_nat i else None.

(** [a % b] on numbers of the same sign is the truncated remainder. *)
Definition rem (a b : Z) : Z := Z.rem a b.

End Js.

(** ** Reading the configuration (lines 392-393) *)

(** [wrap.getAttribute("data-autoplay") === "true"] *)
Definition read_autoplayEnabled (attr : option Js.str) : bool :=
  match attr with
  | Some s => bool_decide (s = Js.lit "true")
  | None => false
  end.

(** [parseInt(wrap.getAttribute("data-autoplay-duration"), 10) || 4000] *)
Definition read_autoplayDuration (attr : option Js.str) : Z :=
  Js.or_default (Js.parseInt (Js.ToString_attr attr)) 4000.

(** A text [parseInt] reads no number from: past leading white space and
    at most one sign, it does not continue with a decimal digit. *)
Inductive NoNumber : Js.str -> Prop :=
| NoNumber_empty : NoNumber []
| NoNumber_space c s :
    Js.isWhiteSpace c = true -> NoNumber s -> NoNumber (c :: s)
| NoNumber_sign c s :
    Js.isSign c = true -> Js.digitsPrefix s = [] -> NoNumber (c :: s)
| NoNumber_other c s :
    Js.isWhiteSpace c = false -> Js.isSign c = false -> Js.isDigit c = false ->
    NoNumber (c :: s).


(** What the specification calls a numeric value: a decimal numeral, that
    is at most one sign and then decimal digits and nothing else, one digit
    at least. A number followed by a unit, as in "2500ms", is not one. *)
Definition isNumeral (s : Js.str) : bool :=
  let digits := match s with
                | c :: r => if Js.isSign c then r else s
                | [] => []
                end in
  match digits with
  | [] => false
  | _ => forallb Js.isDigit digits
  end.

(** A non-numeric value, in the specification's words: any text that is
    not a numeral; an absent attribute counts as one. *)
Definition NonNumeric (s : Js.str) : Prop := isNumeral s = false.



(** ** Markup and animation requests *)

(** An opaque DOM node. *)
Definition Elem := nat.

(** What a [gsap] call is aimed at, by slide position: the slide's item,
    its image, the result of its [getLines()], or the lines of one
    SplitText instance (the [self.lines] of onSplit). *)
Inductive Target :=
| Item (slide : nat)
| Image (slide : nat)
| Lines (slide : nat)
| SelfLines (slide : nat) (el : Elem).

(** Animated properties. [clipPath r] is "circle(r% at 50% 50%)". *)
Inductive Prop_ :=
| autoAlpha (v : Z)
| pointerEvents (auto : bool)
| yPercent (v : Z)
| clipPath (r : Z).

Inductive Ease := power2 | power4_inOut.

(** The position parameter of a timeline call: [0], [">-=0.3"], ["<"], [">"]. *)
Inductive Position := at_0 | after_prev_minus_300 | with_prev | after_prev.

(** Requests made to the animation library for visual work, durations and
    stagger amounts in milliseconds (0.4 s is 400). Delayed calls are not
    listed here: the autoplay timer is a field of the state. *)
Inductive Call :=
| gsap_set (t : Target) (vars : list Prop_)
| gsap_timeline
| tl_to (t : Target) (vars : list Prop_) (duration : Z) (ease : Ease)
        (stagger : option Z) (pos : Position)
| tl_fromTo (t : Target) (from to : list Prop_) (duration : Z) (ease : Ease)
            (pos : Position)
| tl_set (t : Target) (vars : list Prop_) (pos : Position)
| SplitText_create (slide : nat) (el : Elem).

(** One entry of [slides]: the item's class and aria-hidden attribute (the
    two things [setSlideState] writes on the DOM directly), the image and
    the split targets found under it, and the SplitText instances, each
    named by the element it splits. *)
Record Slide := mkSlide {
  is_active : bool;
  aria_hidden : option string;
  image : option Elem;
  splitTargets : list Elem;
  splitInstances : list Elem
}.

(** [gsap.delayedCall]: the object behind [autoplayCall]. [t_id] tells one
    delayed call from the next; [t_remaining] is the time left in
    milliseconds before the callback runs. *)
Record Timer := mkTimer {
  t_id : nat;
  t_remaining : Z;
  t_paused : bool
}.

(** The closure variables of one carousel. [timeline] is the transition in
    flight: the [nextIndex] its onComplete closure captured. [trace] lists
    the animation requests made so far, latest first. [serial] numbers the
    delayed calls. *)
Record State := mkState {
  slides : list Slide;
  btnPrev : bool;
  btnNext : bool;
  elCurrent : option string;
  elTotal : option string;
  activeIndex : Z;
  isAnimating : bool;
  reduceMotion : bool;
  autoplayEnabled : bool;
  autoplayDuration : Z;
  autoplayCall : option Timer;
  isInView : bool;
  timeline : option Z;
  trace : list Call;
  serial : nat
}.

Definition set_slides (f : list Slide -> list Slide) (s : State) : State :=
  mkState (f (slides s)) (btnPrev s) (btnNext s) (elCurrent s) (elTotal s)
          (activeIndex s) (isAnimating s) (reduceMotion s) (autoplayEnabled s)
          (autoplayDuration s) (autoplayCall s) (isInView s) (timeline s)
          (trace s) (serial s).

Definition set_elCurrent (v : option string) (s : State) : State :=
  mkState (slides s) (btnPrev s) (btnNext s) v (elTotal s)
          (activeIndex s) (isAnimating s) (reduceMotion s) (autoplayEnabled s)
          (autoplayDuration s) (autoplayCall s) (isInView s) (timeline s)
          (trace s) (serial s).

Definition set_activeIndex (v : Z) (s : State) : State :=
  mkState (slides s) (btnPrev s) (btnNext s) (elCurrent s) (elTotal s)
          v (isAnimating s) (reduceMotion s) (autoplayEnabled s)
          (autoplayDuration s) (autoplayCall s) (isInView s) (timeline s)
          (trace s) (serial s).

Definition set_isAnimating (v : bool) (s : State) : State :=
  mkState (slides s) (btnPrev s) (btnNext s) (elCurrent s) (elTotal s)
          (activeIndex s) v (reduceMotion s) (autoplayEnabled s)
          (autoplayDuration s) (autoplayCall s) (isInView s) (timeline s)
          (trace s) (serial s).

Definition set_reduceMotion (v : bool) (s : State) : State :=
  mkState (slides s) (btnPrev s) (btnNext s) (elCurrent s) (elTotal s)
          (activeIndex s) (isAnimating s) v (autoplayEnabled s)
          (autoplayDuration s) (autoplayCall s) (isInView s) (timeline s)
          (trace s) (serial s).

Definition set_autoplayCall (v : option Timer) (s : State) : State :=
  mkState (slides s) (btnPrev s) (btnNext s) (elCurrent s) (elTotal s)
          (activeIndex s) (isAnimating s) (reduceMotion s) (autoplayEnabled s)
          (autoplayDuration s) v (isInView s) (timeline s)
          (trace s) (serial s).

Definition set_isInView (v : bool) (s : State) : State :=
  mkState (slides s) (btnPrev s) (btnNext s) (elCurrent s) (elTotal s)
          (activeIndex s) (isAnimating s) (reduceMotion s) (autoplayEnabled s)
          (autoplayDuration s) (autoplayCall s) v (timeline s)
          (trace s) (serial s).

Definition set_timeline (v : option Z) (s : State) : State :=
  mkState (slides s) (btnPrev s) (btnNext s) (elCurrent s) (elTotal s)
          (activeIndex s) (isAnimating s) (reduceMotion s) (autoplayEnabled s)
          (autoplayDuration s) (autoplayCall s) (isInView s) v
          (trace s) (serial s).

Definition set_serial (v : nat) (s : State) : State :=
  mkState (slides s) (btnPrev s) (btnNext s) (elCurrent s) (elTotal s)
          (activeIndex s) (isAnimating s) (reduceMotion s) (autoplayEnabled s)
          (autoplayDuration s) (autoplayCall s) (isInView s) (timeline s)
          (trace s) v.

Definition emit (c : Call) (s : State) : State :=
  mkState (slides s) (btnPrev s) (btnNext s) (elCurrent s) (elTotal s)
          (activeIndex s) (isAnimating s) (reduceMotion s) (autoplayEnabled s)
          (autoplayDuration s) (autoplayCall s) (isInView s) (timeline s)
          (c :: trace s) (serial s).

(** ** Computations: state plus an uncaught TypeError *)

Inductive Outcome (A : Type) :=
| Returned (a : A)
| Threw.
Arguments Returned {A} a.
Arguments Threw {A}.

Definition M (A : Type) := State -> Outcome A * State.

Definition ret {A} (a : A) : M A := fun s => (Returned a, s).

Definition bind {A B} (m : M A) (k : A -> M B) : M B :=
  fun s => match m s with
           | (Returned a, s') => k a s'
           | (Threw, s') => (Threw, s')
           end.

(** Reading a property of [undefined]. *)
Definition throw {A} : M A := fun s => (Threw, s).

Definition get : M State := fun s => (Returned s, s).

Definition modify (f : State -> State) : M unit := fun s => (Returned tt, f s).

(** [x.prop] where [x] may be undefined. *)
Definition defined {A} (x : option A) : M A :=
  match x with
  | Some a => ret a
  | None => throw
  end.

Definition when (b : bool) (m : M unit) : M unit := if b then m else ret tt.

Notation "'let*' x ':=' m 'in' k" := (bind m (fun x => k))
  (at level 10, x name, k at level 200).
Notation "m >> k" := (bind m (fun _ => k))
  (at level 60, right associativity).

(** The state a computation leaves, whether it returned or threw: an
    exception escaping a listener or a callback is reported by the host and
    the writes made before it stay. *)
Definition exec {A} (m : M A) (s : State) : State := snd (m s).

Definition threw {A} (m : M A) (s : State) : bool :=
  match fst (m s) with
  | Threw => true
  | Returned _ => false
  end.

(** ** The controller's inner functions *)

(** [String(b)] for a boolean. *)
Definition String_bool (b : bool) : string :=
  if b then "true"%string else "false"%string.

(** The two DOM writes of [setSlideState] on an item. *)
Definition mark (isActive : bool) (sl : Slide) : Slide :=
  mkSlide isActive (Some (String_bool (negb isActive)))
          (image sl) (splitTargets sl) (splitInstances sl).

(** Lines 415-423. The destructuring of [slides[slideIndex]] throws when
    the entry is undefined. *)
Definition setSlideState (slideIndex : Z) (isActive : bool) : M unit :=
  let* s := get in
  let* _ := defined (Js.index (slides s) slideIndex) in
  let i := Z.to_nat slideIndex in
  modify (set_slides (alter (mark isActive) i)) >>
  modify (emit (gsap_set (Item i)
                  [autoAlpha (if isActive then 1 else 0);
                   pointerEvents isActive])).

(** Lines 425-427. *)
Definition updateCounter : M unit :=
  let* s := get in
  match elCurrent s with
  | Some _ => modify (set_elCurrent (Some (Js.String_ (activeIndex s + 1))))
  | None => ret tt
  end.

(** Lines 429-433: kill the delayed call if there is one and make a new one
    for the whole duration. What the new one runs when it fires is
    [autoplayCallback] below. *)
Definition startAutoplay : M unit :=
  let* s := get in
  if negb (autoplayEnabled s) then ret tt else
  modify (set_autoplayCall
            (Some (mkTimer (serial s) (autoplayDuration s) false))) >>
  modify (set_serial (S (serial s))).

(** Lines 443-445. *)
Definition pauseAutoplay : M unit :=
  let* s := get in
  match autoplayCall s with
  | Some t => modify (set_autoplayCall
                        (Some (mkTimer (t_id t) (t_remaining t) true)))
  | None => ret tt
  end.

(** Lines 447-451. *)
Definition resumeAutoplay : M unit :=
  let* s := get in
  if negb (autoplayEnabled s) then ret tt else
  match autoplayCall s with
  | None => startAutoplay
  | Some t => modify (set_autoplayCall
                        (Some (mkTimer (t_id t) (t_remaining t) false)))
  end.

(** Lines 453-456. *)
Definition resetAutoplay : M unit :=
  let* s := get in
  if negb (autoplayEnabled s) then ret tt else startAutoplay.

Definition has {A} (x : option A) : bool :=
  match x with Some _ => true | None => false end.

(** The reduced-motion branch of [goTo], lines 511-526. [tl.to] has run
    when the argument of [.fromTo] is evaluated. *)
Definition crossFade (outgoingSlide incomingSlide : option Slide)
    (out inc : nat) : M unit :=
  let* _ := defined outgoingSlide in
  modify (emit (tl_to (Item out) [autoAlpha 0] 400 power2 None at_0)) >>
  let* _ := defined incomingSlide in
  modify (emit (tl_fromTo (Item inc) [autoAlpha 0] [autoAlpha 1] 400 power2
                  at_0)).

(** The full-motion branch of [goTo], lines 528-567. *)
Definition lineReveal (outgoingSlide incomingSlide : option Slide)
    (out inc : nat) : M unit :=
  let* o := defined outgoingSlide in
  let* i := defined incomingSlide in
  modify (emit (gsap_set (Item inc) [autoAlpha 1; pointerEvents true])) >>
  modify (emit (gsap_set (Lines inc) [yPercent 110])) >>
  when (has (image i)) (modify (emit (gsap_set (Image inc) [clipPath 0]))) >>
  when (has (image o)) (modify (emit (gsap_set (Image out) [clipPath 50]))) >>
  modify (emit (tl_to (Lines out) [yPercent (-110)] 600 power4_inOut
                  (Some 250) at_0)) >>
  when (has (image o))
       (modify (emit (tl_to (Image out) [clipPath 0] 600 power4_inOut None
                        at_0))) >>
  modify (emit (tl_to (Lines inc) [yPercent 0] 700 power4_inOut (Some 400)
                  after_prev_minus_300)) >>
  when (has (image i))
       (modify (emit (tl_to (Image inc) [clipPath 50] 750 power4_inOut None
                        with_prev))) >>
  modify (emit (tl_set (Item out) [autoAlpha 0] after_prev)).

(** Lines 494-568. The timeline made at line 501 is recorded with the
    [nextIndex] its onComplete closes over. *)
Definition goTo (nextIndex : Z) : M unit :=
  let* s := get in
  if isAnimating s || (nextIndex =? activeIndex s) then ret tt else
  modify (set_isAnimating true) >>
  let outgoingSlide := Js.index (slides s) (activeIndex s) in
  let incomingSlide := Js.index (slides s) nextIndex in
  modify (emit gsap_timeline) >>
  modify (set_timeline (Some nextIndex)) >>
  if reduceMotion s
  then crossFade outgoingSlide incomingSlide
                 (Z.to_nat (activeIndex s)) (Z.to_nat nextIndex)
  else lineReveal outgoingSlide incomingSlide
                  (Z.to_nat (activeIndex s)) (Z.to_nat nextIndex).

(** Lines 502-508: the onComplete closure of the timeline. *)
Definition onComplete (nextIndex : Z) : M unit :=
  let* s := get in
  setSlideState (activeIndex s) false >>
  setSlideState nextIndex true >>
  modify (set_activeIndex nextIndex) >>
  updateCounter >>
  modify (set_isAnimating false).

Definition slideCount (s : State) : Z := Z.of_nat (length (slides s)).

(** The index expressions of the handlers. *)
Definition nextTarget (s : State) : Z :=
  Js.rem (activeIndex s + 1) (slideCount s).

Definition prevTarget (s : State) : Z :=
  Js.rem (activeIndex s - 1 + slideCount s) (slideCount s).

(** Lines 433-440: what the delayed call runs. *)
Definition autoplayCallback : M unit :=
  let* s := get in
  if negb (isInView s) || isAnimating s then startAutoplay else
  goTo (nextTarget s) >>
  startAutoplay.

(** Lines 574-577 and 581-584: the bodies of the two click listeners,
    which the key listener repeats at lines 602-603 and 608-609. *)
Definition next : M unit :=
  resetAutoplay >>
  let* s := get in
  goTo (nextTarget s).

Definition prev : M unit :=
  resetAutoplay >>
  let* s := get in
  goTo (prevTarget s).

(** A keydown event: its key and, when it has a target, the target's tag
    name and whether it is content-editable. *)
Record KeyEvent := mkKeyEvent {
  key : string;
  target : option (string * bool)
}.

Definition isTypingTarget (e : KeyEvent) : bool :=
  match target e with
  | Some (tagName, isContentEditable) =>
      String.eqb tagName "INPUT" || String.eqb tagName "TEXTAREA"
      || isContentEditable
  | None => false
  end.

(** Lines 587-611. *)
Definition onKeyDown (e : KeyEvent) : M unit :=
  let* s := get in
  if negb (isInView s) then ret tt else
  if isTypingTarget e then ret tt else
  when (String.eqb (key e) "ArrowRight") next >>
  when (String.eqb (key e) "ArrowLeft") prev.

(** Lines 621-636: the four ScrollTrigger callbacks. *)
Definition onEnter : M unit := modify (set_isInView true) >> resumeAutoplay.
Definition onEnterBack : M unit := modify (set_isInView true) >> resumeAutoplay.
Definition onLeave : M unit := modify (set_isInView false) >> pauseAutoplay.
Definition onLeaveBack : M unit := modify (set_isInView false) >> pauseAutoplay.

(** Lines 478-489: onSplit of the SplitText instance made for [el] under
    slide [slideIndex]. SplitText runs it whenever it splits or re-splits
    the element. *)
Definition onSplit (slideIndex : nat) (el : Elem) : M unit :=
  let* s := get in
  match slides s !! slideIndex with
  | None => ret tt
  | Some slide =>
      if reduceMotion s then ret tt else
      let isActive := Z.of_nat slideIndex =? activeIndex s in
      modify (emit (gsap_set (SelfLines slideIndex el)
                      [yPercent (if isActive then 0 else 110)])) >>
      when (has (image slide))
           (modify (emit (gsap_set (Image slideIndex)
                            [clipPath (if isActive then 50 else 0)])))
  end.

(** ** Time and the host's events *)

(** [ms] milliseconds pass for the delayed call: a paused one keeps its
    remaining time, a running one counts down and runs its callback when
    the time is up. (A delayed call exists only when autoplay is enabled,
    and its callback then always replaces it by a new one.) *)
Definition elapse (ms : N) : M unit :=
  let* s := get in
  match autoplayCall s with
  | None => ret tt
  | Some t =>
      if t_paused t then ret tt else
      if Z.of_N ms <? t_remaining t
      then modify (set_autoplayCall
                     (Some (mkTimer (t_id t) (t_remaining t - Z.of_N ms) false)))
      else autoplayCallback
  end.

(** The timeline in flight finishes: its onComplete runs, once. *)
Definition complete : M unit :=
  let* s := get in
  match timeline s with
  | None => ret tt
  | Some nextIndex => modify (set_timeline None) >> onComplete nextIndex
  end.

(** Lines 463-468: the matchMedia callback. *)
Definition onMedia (reduce : bool) : M unit := modify (set_reduceMotion reduce).

Inductive Event :=
| click_next
| click_prev
| keydown (e : KeyEvent)
| time_passes (ms : N)
| timeline_completes
| scroll_enter
| scroll_enterBack
| scroll_leave
| scroll_leaveBack
| media_matches (reduce : bool)
| text_split (slideIndex : nat) (el : Elem).

(** The listener or callback an event runs. The click listeners exist only
    when the buttons do (lines 573 and 580). *)
Definition handler (e : Event) : M unit :=
  match e with
  | click_next => let* s := get in when (btnNext s) next
  | click_prev => let* s := get in when (btnPrev s) prev
  | keydown k => onKeyDown k
  | time_passes ms => elapse ms
  | timeline_completes => complete
  | scroll_enter => onEnter
  | scroll_enterBack => onEnterBack
  | scroll_leave => onLeave
  | scroll_leaveBack => onLeaveBack
  | media_matches r => onMedia r
  | text_split i el => onSplit i el
  end.

Definition step (s : State) (e : Event) : State := exec (handler e) s.

Definition run (s : State) (es : list Event) : State := fold_left step es s.

(** ** Initialization (lines 372-413, 458-492, 571) *)

(** One [data-testimonial-item]: whether it carries the class "is--active",
    its image, its [data-testimonial-text] and its [data-testimonial-split]
    elements. *)
Record ItemMarkup := mkItem {
  m_active : bool;
  m_image : option Elem;
  m_text : option Elem;
  m_split : list Elem
}.

(** One [data-testimonial-wrap]: the items of its list when it has one, the
    optional buttons, the text of the optional counter elements, and the
    two autoplay attributes. *)
Record Wrap := mkWrap {
  w_list : option (list ItemMarkup);
  w_prev : bool;
  w_next : bool;
  w_current : option string;
  w_total : option string;
  w_autoplay : option Js.str;
  w_autoplay_duration : option Js.str
}.

(** [items.findIndex(el => el.classList.contains("is--active"))] *)
Fixpoint findIndex_from (i : Z) (items : list ItemMarkup) : Z :=
  match items with
  | [] => -1
  | it :: r => if m_active it then i else findIndex_from (i + 1) r
  end.

Definition findIndex (items : list ItemMarkup) : Z := findIndex_from 0 items.

(** Lines 398-413. *)
Definition slide_of (it : ItemMarkup) : Slide :=
  mkSlide (m_active it) None (m_image it)
          (option_list (m_text it) ++ m_split it) [].

(** [f(0); f(1); ...; f(n-1)] *)
Fixpoint forEach_from (i : nat) (n : nat) (f : nat -> M unit) : M unit :=
  match n with
  | O => ret tt
  | S n' => f i >> forEach_from (S i) n' f
  end.

Fixpoint forEach_list {A} (l : list A) (f : A -> M unit) : M unit :=
  match l with
  | [] => ret tt
  | a :: r => f a >> forEach_list r f
  end.

Definition set_splitInstances (v : list Elem) (sl : Slide) : Slide :=
  mkSlide (is_active sl) (aria_hidden sl) (image sl) (splitTargets sl) v.

(** Lines 471-492: one [SplitText.create] per split target of every slide,
    whatever [reduceMotion] is. *)
Definition createSplits : M unit :=
  let* s := get in
  forEach_from 0 (length (slides s)) (fun slideIndex =>
    let* s := get in
    match slides s !! slideIndex with
    | None => ret tt
    | Some slide =>
        forEach_list (splitTargets slide)
          (fun el => modify (emit (SplitText_create slideIndex el))) >>
        modify (set_slides
                  (alter (set_splitInstances (splitTargets slide)) slideIndex))
    end).

(** The body of the [wraps.forEach] callback from line 384 on. [reduce]
    tells whether "(prefers-reduced-motion: reduce)" matches when
    [gsap.matchMedia().add] is called: the library then runs the callback
    at once, and not at all otherwise. *)
Definition setup (reduce : bool) : M unit :=
  let* s := get in
  forEach_from 0 (length (slides s))
    (fun i => setSlideState (Z.of_nat i) (Z.of_nat i =? activeIndex s)) >>
  updateCounter >>
  when reduce (onMedia true) >>
  createSplits >>
  startAutoplay.

Definition initial (w : Wrap) (items : list ItemMarkup) : State :=
  let found := findIndex items in
  mkState (slide_of <$> items) (w_prev w) (w_next w) (w_current w)
          (match w_total w with
           | Some _ => Some (Js.String_ (Z.of_nat (length items)))
           | None => None
           end)
          (if found <? 0 then 0 else found)
          false false
          (read_autoplayEnabled (w_autoplay w))
          (read_autoplayDuration (w_autoplay_duration w))
          None true None [] 0.

(** [None] where the callback returns early (lines 374 and 377). *)
Definition init (w : Wrap) (reduce : bool) : option State :=
  match w_list w with
  | None => None
  | Some [] => None
  | Some items => Some (exec (setup reduce) (initial w items))
  end.

(** The states a carousel can be in. *)
Inductive reachable : State -> Prop :=
| reachable_init w reduce s : init w reduce = Some s -> reachable s
| reachable_step s e : reachable s -> reachable (step s e).

(** ** Vocabulary of the statements *)

(** Several requests at once, latest first. *)
Definition emits (cs : list Call) (s : State) : State :=
  mkState (slides s) (btnPrev s) (btnNext s) (elCurrent s) (elTotal s)
          (activeIndex s) (isAnimating s) (reduceMotion s) (autoplayEnabled s)
          (autoplayDuration s) (autoplayCall s) (isInView s) (timeline s)
          (cs ++ trace s) (serial s).

(** The plain cross-fade: the outgoing item's opacity to 0 and the incoming
    item's from 0 to 1, both over 400 ms from the start of the timeline. *)
Definition crossFade_calls (out inc : nat) : list Call :=
  [tl_fromTo (Item inc) [autoAlpha 0] [autoAlpha 1] 400 power2 at_0;
   tl_to (Item out) [autoAlpha 0] 400 power2 None at_0].

(** The line reveal, as [lineReveal] requests it for an outgoing slide [o]
    at position [out] and an incoming slide [i] at position [inc]. *)
Definition lineReveal_calls (o i : Slide) (out inc : nat) : list Call :=
  [tl_set (Item out) [autoAlpha 0] after_prev]
  ++ (if has (image i)
      then [tl_to (Image inc) [clipPath 50] 750 power4_inOut None with_prev]
      else [])
  ++ [tl_to (Lines inc) [yPercent 0] 700 power4_inOut (Some 400)
        after_prev_minus_300]
  ++ (if has (image o)
      then [tl_to (Image out) [clipPath 0] 600 power4_inOut None at_0]
      else [])
  ++ [tl_to (Lines out) [yPercent (-110)] 600 power4_inOut (Some 250) at_0]
  ++ (if has (image o) then [gsap_set (Image out) [clipPath 50]] else [])
  ++ (if has (image i) then [gsap_set (Image inc) [clipPath 0]] else [])
  ++ [gsap_set (Lines inc) [yPercent 110];
      gsap_set (Item inc) [autoAlpha 1; pointerEvents true]].

(** All the requests of a transition from the active slide to [t]. *)
Definition transition_calls (s : State) (t : Z) : list Call :=
  match Js.index (slides s) (activeIndex s), Js.index (slides s) t with
  | Some o, Some i =>
      (if reduceMotion s
       then crossFade_calls (Z.to_nat (activeIndex s)) (Z.to_nat t)
       else lineReveal_calls o i (Z.to_nat (activeIndex s)) (Z.to_nat t))
      ++ [gsap_timeline]
  | _, _ => []
  end.

(** The state in which a transition to [t] has begun. *)
Definition started (t : Z) (s : State) : State :=
  emits (transition_calls s t) (set_timeline (Some t) (set_isAnimating true s)).

(** [goTo t] for a slide position [t]: nothing at the guard, a transition
    begun past it. *)
Definition moved (t : Z) (s : State) : State :=
  if isAnimating s || (t =? activeIndex s) then s else started t s.

(** The autoplay timer cancelled and started again for the whole duration,
    when autoplay is enabled. *)
Definition restarted (s : State) : State :=
  if autoplayEnabled s
  then set_serial (S (serial s))
         (set_autoplayCall
            (Some (mkTimer (serial s) (autoplayDuration s) false)) s)
  else s.

(** The state in which the transition to [t] has completed. *)
Definition settled (t : Z) (s : State) : State :=
  mkState (alter (mark true) (Z.to_nat t)
             (alter (mark false) (Z.to_nat (activeIndex s)) (slides s)))
          (btnPrev s) (btnNext s)
          (match elCurrent s with
           | Some _ => Some (Js.String_ (t + 1))
           | None => None
           end)
          (elTotal s) t false (reduceMotion s) (autoplayEnabled s)
          (autoplayDuration s) (autoplayCall s) (isInView s) (timeline s)
          ([gsap_set (Item (Z.to_nat t)) [autoAlpha 1; pointerEvents true];
            gsap_set (Item (Z.to_nat (activeIndex s)))
              [autoAlpha 0; pointerEvents false]] ++ trace s)
          (serial s).

(** A request of the line-reveal path: it moves lines or clips an image. *)
Definition usesProp (p : Prop_) : bool :=
  match p with
  | yPercent _ | clipPath _ => true
  | autoAlpha _ | pointerEvents _ => false
  end.

Definition isReveal (c : Call) : bool :=
  match c with
  | gsap_set (Lines _) _ | gsap_set (Image _) _ | gsap_set (SelfLines _ _) _
  | tl_to (Lines _) _ _ _ _ _ | tl_to (Image _) _ _ _ _ _ => true
  | gsap_set _ vars | tl_to _ vars _ _ _ _ | tl_set _ vars _ =>
      existsb usesProp vars
  | tl_fromTo _ from to _ _ _ => existsb usesProp (from ++ to)
  | gsap_timeline | SplitText_create _ _ => false
  end.

(** A request that belongs to a transition: a timeline and what is put on
    it. *)
Definition isTransition (c : Call) : bool :=
  match c with
  | gsap_timeline | tl_to _ _ _ _ _ _ | tl_fromTo _ _ _ _ _ _ | tl_set _ _ _ =>
      true
  | gsap_set _ _ | SplitText_create _ _ => false
  end.

(** How many slides carry the class "is--active". *)
Definition count_active (s : State) : nat :=
  length (List.filter is_active (slides s)).

Definition marked (s : State) (i : Z) (b : bool) : Prop :=
  exists sl, Js.index (slides s) i = Some sl /\ is_active sl = b.

(** A delayed call made anew for the whole duration: what rescheduling the
    autoplay timer produces. *)
Definition rescheduled (before after : State) : Prop :=
  exists t, autoplayCall after = Some t
            /\ t_remaining t = autoplayDuration after
            /\ t_paused t = false
            /\ forall t0, autoplayCall before = Some t0 -> t_id t0 <> t_id t.

(** Two states that show the same thing: they differ at most in the
    autoplay timer, the view and motion flags, and the requests made. *)
Definition same_show (s s' : State) : Prop :=
  slides s' = slides s /\ activeIndex s' = activeIndex s
  /\ isAnimating s' = isAnimating s /\ timeline s' = timeline s
  /\ elCurrent s' = elCurrent s /\ elTotal s' = elTotal s
  /\ btnPrev s' = btnPrev s /\ btnNext s' = btnNext s
  /\ autoplayEnabled s' = autoplayEnabled s
  /\ autoplayDuration s' = autoplayDuration s.

Definition timer_ok (s : State) : Prop :=
  autoplayCall s <> None <-> autoplayEnabled s = true.

(** What a slide keeps for life: its image and its split targets. *)
Definition meta (sl : Slide) : option Elem * list Elem :=
  (image sl, splitTargets sl).

(** Two states that differ at most in the slides' markings and split
    instances, the counter text and the requests made. *)
Definition same_config (s s' : State) : Prop :=
  activeIndex s' = activeIndex s /\ isAnimating s' = isAnimating s
  /\ timeline s' = timeline s /\ autoplayCall s' = autoplayCall s
  /\ serial s' = serial s /\ autoplayEnabled s' = autoplayEnabled s
  /\ autoplayDuration s' = autoplayDuration s
  /\ reduceMotion s' = reduceMotion s /\ isInView s' = isInView s
  /\ meta <$> slides s' = meta <$> slides s.

(** No request of the trace belongs to a transition. *)
Definition still (s : State) : Prop :=
  Forall (fun c => isTransition c = false) (trace s).

(** The slide at position [a], and no other, carries the class. *)
Definition marks (a : Z) (l : list Slide) : Prop :=
  forall i sl, l !! i = Some sl -> is_active sl = (Z.of_nat i =? a).

(** The invariant of the controller. *)
Record Inv (s : State) : Prop := mkInv {
  inv_range : 0 <= activeIndex s < slideCount s;
  inv_marks : marks (activeIndex s) (slides s);
  inv_timeline : forall t, timeline s = Some t ->
                   isAnimating s = true /\ 0 <= t < slideCount s
                   /\ t <> activeIndex s;
  inv_busy : isAnimating s = true -> timeline s <> None;
  inv_timer : timer_ok s
}.

(** The state after an out-of-range [goTo]: busy, with no timeline that
    could ever clear the flag. *)
Definition Locked (a : Z) (s : State) : Prop :=
  isAnimating s = true /\ activeIndex s = a
  /\ forall t, timeline s = Some t -> Js.index (slides s) t = None.

(** A carousel of one slide at rest. *)
Definition Single (s : State) : Prop :=
  length (slides s) = 1%nat /\ activeIndex s = 0 /\ isAnimating s = false
  /\ timeline s = None /\ still s.

Definition isCompletion (e : Event) : bool :=
  match e with timeline_completes => true | _ => false end.

Definition isLeave (e : Event) : bool :=
  match e with scroll_leave | scroll_leaveBack => true | _ => false end.

Definition isEnter (e : Event) : bool :=
  match e with scroll_enter | scroll_enterBack => true | _ => false end.

(** The wait between leaving and re-entering the viewport. *)
Definition waiting (ms : list N) : list Event := time_passes <$> ms.

(** ** Sample carousels *)

(** A slide with an image, a text and one more split target. *)
Definition sample_item (k : nat) : ItemMarkup :=
  mkItem false (Some (10 * k)%nat) (Some (10 * k + 1)%nat) [(10 * k + 2)%nat].

(** [n] slides, both buttons, both counters, autoplay on, no duration
    attribute. *)
Definition sample_wrap (n : nat) : Wrap :=
  mkWrap (Some (sample_item <$> seq 0 n)) true true
         (Some EmptyString) (Some EmptyString) (Some (Js.lit "true")) None.

(** The carousel a wrap gives, for wraps that have slides. *)
Definition carousel (w : Wrap) (reduce : bool) : State :=
  default (initial w []) (init w reduce).

Arguments Js.rem : simpl never.
Arguments Js.String_ : simpl never.
Arguments Js.index : simpl never.
Arguments String.eqb : simpl never.
Arguments goTo : simpl never.
Arguments onComplete : simpl never.
Arguments setSlideState : simpl never.
Arguments startAutoplay : simpl never.
Arguments resetAutoplay : simpl never.
Arguments next : simpl never.
Arguments prev : simpl never.
Arguments autoplayCallback : simpl never.

(** ** Waiting for the libraries (lines 7-11) *)

(** What [window] holds of the three libraries at one moment. *)
Record Libs := mkLibs {
  gsap : bool;
  ScrollTrigger : bool;
  SplitText : bool
}.

(** [window.gsap && window.ScrollTrigger && window.SplitText] *)
Definition ready (l : Libs) : bool := gsap l && ScrollTrigger l && SplitText l.

(** How [waitForGsap] ends: it runs the callback, or it warns, either way
    after so many timeouts, each of them asked for 50 ms from now. *)
Inductive WaitResult :=
| cb_runs (waited : nat)
| warns (waited : nat).

(** [waitForGsap(cb, tries)]. [window k] is what the page holds after [k]
    timeouts. The retry is made through [setTimeout], 50 ms later, with
    one try less. *)
Unset Equations With Funext.
Equations? waitForGsap(window : nat -> Libs) (waited : nat) (tries : Z)
  : WaitResult by wf (Z.to_nat tries) lt :=
  waitForGsap window waited tries with ready (window waited) => {
    | true := cb_runs waited;
    | false with Z_le_gt_dec tries 0 => {
      | left _ := warns waited;
      | right _ := waitForGsap window (S waited) (tries - 1) } }.
Proof. lia. Qed.

(** The call made by [init] (line 18): [tries] takes its default, 80. *)
Definition waitForGsap_from_init (window : nat -> Libs) : WaitResult :=
  waitForGsap window 0 80.

(** ** The two-step navigation (lines 43-66) *)

Module Nav.

(** The page as [initTwostepScalingNavigation] finds it: whether there is
    a [data-twostep-nav] element, and the value of "data-nav-status" on
    the first element that has the attribute. *)
Record Page := mkPage {
  navElement : bool;
  navStatus : option string
}.

(** The state is the value of the "data-nav-status" attribute. *)
Definition isActive (status : string) : bool := String.eqb status "active".

Definition openNav (status : string) : string := "active".

Definition closeNav (status : string) : string := "not-active".

Definition toggleNav (status : string) : string :=
  if isActive status then closeNav status else openNav status.

(** A click on a [data-nav-toggle="toggle"] element, a click on a
    [data-nav-toggle="close"] element, a key press anywhere. *)
Inductive Event :=
| toggle_click
| close_click
| keydown (key : string).

Definition handler (status : string) (e : Event) : string :=
  match e with
  | toggle_click => toggleNav status
  | close_click => closeNav status
  | keydown key =>
      if String.eqb key "Escape" && isActive status
      then closeNav status
      else status
  end.

Definition run (status : string) (es : list Event) : string :=
  fold_left handler es status.

(** Line 46: without either element no listener is added. [None] is that
    case; otherwise the initial state is the attribute's value. *)
Definition init (p : Page) : option string :=
  if navElement p then navStatus p else None.

(** The events that close the navigation when they do anything. *)
Definition closes (e : Event) : bool :=
  match e with
  | toggle_click => false
  | close_click => true
  | keydown key => String.eqb key "Escape"
  end.

Definition isToggle (e : Event) : bool :=
  match e with toggle_click => true | _ => false end.

End Nav.

(** ** Vocabulary of the further properties *)

(** The "aria-hidden" attribute of an item says the opposite of its
    class. *)
Definition ariaOK (sl : Slide) : Prop :=
  aria_hidden sl = Some (String_bool (negb (is_active sl))).

(** The counter elements, where there are any, show the active slide
    counted from 1 and the number of slides. *)
Definition counterOK (s : State) : Prop :=
  (forall txt, elCurrent s = Some txt -> txt = Js.String_ (activeIndex s + 1))
  /\ (forall txt, elTotal s = Some txt -> txt = Js.String_ (slideCount s)).

(** What the DOM shows agrees with the controller's variables. *)
Definition Shown (s : State) : Prop :=
  Forall ariaOK (slides s) /\ counterOK s.

(** A computation never leaves a state that is not [R]-related to the one
    it started from, whether it returns or throws. *)
Definition keeps (R : State -> State -> Prop) {A} (m : M A) : Prop :=
  forall s, R s (snd (m s)).

(** Everything but the slides and the requests made is as before, and
    there are as many slides. *)
Definition same_but_slides (s s' : State) : Prop :=
  btnPrev s' = btnPrev s /\ btnNext s' = btnNext s
  /\ elCurrent s' = elCurrent s /\ elTotal s' = elTotal s
  /\ activeIndex s' = activeIndex s /\ isAnimating s' = isAnimating s
  /\ reduceMotion s' = reduceMotion s
  /\ autoplayEnabled s' = autoplayEnabled s
  /\ autoplayDuration s' = autoplayDuration s
  /\ autoplayCall s' = autoplayCall s /\ isInView s' = isInView s
  /\ timeline s' = timeline s /\ serial s' = serial s
  /\ length (slides s') = length (slides s).

(** The state after [updateCounter] and the matchMedia callback of the
    set-up (lines 460-468). *)
Definition counted (reduce : bool) (s : State) : State :=
  set_reduceMotion (if reduce then true else reduceMotion s)
    (set_elCurrent
       (match elCurrent s with
        | Some _ => Some (Js.String_ (activeIndex s + 1))
        | None => None
        end) s).

(** [k] times: the event, then the completion of the transition. *)
Definition rounds (e : Event) (k : nat) : list Event :=
  concat (replicate k [e; timeline_completes]).

(** The requests of the trace that belong to transitions. *)
Definition transitions (s : State) : list Call :=
  List.filter isTransition (trace s).

(** An event in which nothing is done to the carousel: time passes, or the
    timeline in flight completes. *)
Definition isQuiet (e : Event) : bool :=
  match e with
  | time_passes _ | timeline_completes => true
  | _ => false
  end.

(** The time that passes in a run of events, in milliseconds. *)
Fixpoint clock (es : list Event) : Z :=
  match es with
  | [] => 0
  | time_passes ms :: es => Z.of_N ms + clock es
  | _ :: es => clock es
  end.

(** ** Tactics *)

Ltac unfold_handlers :=
  unfold step, exec, threw, handler, onKeyDown, next, prev, onEnter,
    onEnterBack, onLeave, onLeaveBack, onMedia, onSplit, elapse, complete,
    autoplayCallback, resetAutoplay, resumeAutoplay, pauseAutoplay,
    startAutoplay, goTo, nextTarget, prevTarget, when, bind, get, modify,
    ret in *.

(** Case analysis on the innermost conditions first, so that the state a
    later call starts from is known when its own conditions are met. *)
Ltac branch :=
  repeat (cbn in *; subst;
          match goal with
          | |- context [match ?x with _ => _ end] => is_var x; destruct x
          | |- context [negb ?x] => is_var x; destruct x
          | |- context [match ?x with _ => _ end] =>
              lazymatch x with
              | context [match _ with _ => _ end] => fail
              | _ => destruct x eqn:?
              end
          end);
  cbn in *; subst.

Ltac crush_state s :=
  destruct s as [sl bp bn ec et a an rm ae ad ac iv tl tr fr];
  branch; try done.

(** * Properties *)

(** ** The monad and the setters *)

Lemma emits_nil s : emits [] s = s.
Proof. by destruct s. Qed.

Lemma index_Some {A} (l : list A) (i : Z) :
  0 <= i < Z.of_nat (length l) -> exists a, Js.index l i = Some a.
Proof.
  intros [H0 H1]. unfold Js.index.
  destruct (Z.leb_spec 0 i); [|lia].
  destruct (lookup_lt_is_Some_2 l (Z.to_nat i)) as [a Ha]; [lia|].
  by exists a.
Qed.

Lemma index_None {A} (l : list A) (i : Z) :
  i < 0 \/ Z.of_nat (length l) <= i -> Js.index l i = None.
Proof.
  intros H. unfold Js.index.
  destruct (Z.leb_spec 0 i); [|done].
  apply lookup_ge_None_2. lia.
Qed.


(** ** [goTo] *)

Lemma goTo_guard s t :
  isAnimating s = true \/ t = activeIndex s -> goTo t s = (Returned tt, s).
Proof.
  intros H. unfold goTo, bind, get.
  destruct H as [->| ->]; [done|].
  rewrite Z.eqb_refl, orb_true_r. done.
Qed.

Lemma goTo_start s t :
  isAnimating s = false -> t <> activeIndex s ->
  0 <= activeIndex s < slideCount s -> 0 <= t < slideCount s ->
  goTo t s = (Returned tt, started t s).
Proof.
  intros Hb Hne Ha Ht.
  destruct (index_Some (slides s) (activeIndex s) Ha) as [o Ho].
  destruct (index_Some (slides s) t Ht) as [i Hi].
  unfold started, transition_calls, goTo, bind, get. rewrite Hb, Ho, Hi.
  apply Z.eqb_neq in Hne. rewrite Hne. cbn.
  destruct s as [sl bp bn ec et a an rm ae ad ac iv tl tr fr]; cbn in *.
  destruct rm; cbn; [done|].
  unfold lineReveal_calls. destruct (image i), (image o); done.
Qed.

(** An undefined incoming slide: [isAnimating] is set, the timeline is
    made, and the call throws. *)
Lemma goTo_undefined s t :
  isAnimating s = false -> t <> activeIndex s ->
  Js.index (slides s) t = None ->
  threw (goTo t) s = true
  /\ isAnimating (exec (goTo t) s) = true
  /\ activeIndex (exec (goTo t) s) = activeIndex s
  /\ slides (exec (goTo t) s) = slides s
  /\ timeline (exec (goTo t) s) = Some t.
Proof.
  intros Hb Hne Hi.
  unfold threw, exec, goTo, bind, get. rewrite Hb, Hi.
  apply Z.eqb_neq in Hne. rewrite Hne. cbn.
  destruct s as [sl bp bn ec et a an rm ae ad ac iv tl tr fr]; cbn in *.
  destruct rm, (Js.index sl a); cbn; done.
Qed.

(** ** [setSlideState] and the completion callback *)

Lemma setSlideState_defined s i b sl :
  Js.index (slides s) i = Some sl ->
  setSlideState i b s =
    (Returned tt,
     emits [gsap_set (Item (Z.to_nat i))
              [autoAlpha (if b then 1 else 0); pointerEvents b]]
           (set_slides (alter (mark b) (Z.to_nat i)) s)).
Proof.
  intros H. unfold setSlideState, bind, get. rewrite H. cbn.
  by destruct s.
Qed.

Lemma setSlideState_undefined s i b :
  Js.index (slides s) i = None -> setSlideState i b s = (Threw, s).
Proof. intros H. unfold setSlideState, bind, get. by rewrite H. Qed.

Lemma index_alter {A} (f : A -> A) (l : list A) (j : nat) (i : Z) :
  Js.index (alter f j l) i =
    if bool_decide (0 <= i /\ Z.to_nat i = j) then f <$> Js.index l i
    else Js.index l i.
Proof.
  unfold Js.index. destruct (Z.leb_spec 0 i).
  - case_bool_decide as Hd.
    + destruct Hd as [_ <-]. by rewrite list_lookup_alter_eq.
    + rewrite list_lookup_alter_ne; [done|]. intros Hj. by apply Hd.
  - case_bool_decide as Hd; [lia|done].
Qed.

Lemma onComplete_defined s t o i :
  Js.index (slides s) (activeIndex s) = Some o ->
  Js.index (slides s) t = Some i ->
  onComplete t s = (Returned tt, settled t s).
Proof.
  intros Ho Hi. unfold onComplete, bind, get.
  rewrite (setSlideState_defined _ _ _ _ Ho).
  assert (exists i', Js.index (slides (emits
            [gsap_set (Item (Z.to_nat (activeIndex s)))
               [autoAlpha 0; pointerEvents false]]
            (set_slides (alter (mark false) (Z.to_nat (activeIndex s))) s))) t
          = Some i') as [i' Hi'].
  { cbn. rewrite index_alter, Hi. case_bool_decide; eauto. }
  rewrite (setSlideState_defined _ _ _ _ Hi').
  destruct s as [sl bp bn ec et a an rm ae ad ac iv tl tr fr]; cbn.
  unfold updateCounter, bind, get, modify; cbn. by destruct ec.
Qed.

(** An undefined target: the callback throws at the second
    [setSlideState], before [activeIndex] and [isAnimating] are written. *)
Lemma onComplete_undefined s t :
  Js.index (slides s) t = None ->
  threw (onComplete t) s = true
  /\ isAnimating (exec (onComplete t) s) = isAnimating s
  /\ activeIndex (exec (onComplete t) s) = activeIndex s
  /\ timeline (exec (onComplete t) s) = timeline s
  /\ length (slides (exec (onComplete t) s)) = length (slides s).
Proof.
  intros Hi. unfold threw, exec, onComplete, bind, get.
  destruct (Js.index (slides s) (activeIndex s)) as [o|] eqn:Ho.
  - rewrite (setSlideState_defined _ _ _ _ Ho).
    rewrite setSlideState_undefined.
    + destruct s; cbn. by rewrite length_alter.
    + cbn. rewrite index_alter, Hi. by case_bool_decide.
  - by rewrite setSlideState_undefined.
Qed.

(** ** Exactly one active slide *)

Lemma marks_swap a t l :
  0 <= a -> 0 <= t -> marks a l ->
  marks t (alter (mark true) (Z.to_nat t) (alter (mark false) (Z.to_nat a) l)).
Proof.
  intros Ha Ht H i sl.
  destruct (decide (i = Z.to_nat t)) as [->|Hit].
  - rewrite list_lookup_alter_eq. intros Hsl.
    apply fmap_Some in Hsl as (x & _ & ->). cbn.
    symmetry. apply Z.eqb_eq. lia.
  - rewrite list_lookup_alter_ne by done.
    replace (Z.of_nat i =? t) with false by (symmetry; apply Z.eqb_neq; lia).
    destruct (decide (i = Z.to_nat a)) as [->|Hia].
    + rewrite list_lookup_alter_eq. intros Hsl.
      by apply fmap_Some in Hsl as (x & _ & ->).
    + rewrite list_lookup_alter_ne by done. intros Hsl.
      rewrite (H _ _ Hsl). apply Z.eqb_neq. lia.
Qed.

Lemma marks_none (l : list Slide) :
  (forall i sl, l !! i = Some sl -> is_active sl = false) ->
  length (List.filter is_active l) = 0%nat.
Proof.
  induction l as [|x l IH]; intros H; [done|].
  cbn. rewrite (H 0%nat x eq_refl).
  apply IH. intros i sl Hi. exact (H (S i) sl Hi).
Qed.

Lemma marks_count (l : list Slide) : forall (a : nat),
  (a < length l)%nat ->
  (forall i sl, l !! i = Some sl -> is_active sl = bool_decide (i = a)) ->
  length (List.filter is_active l) = 1%nat.
Proof.
  induction l as [|x l IH]; intros a Hlen H; [cbn in Hlen; lia|].
  cbn. rewrite (H 0%nat x eq_refl).
  destruct a as [|a].
  - rewrite bool_decide_eq_true_2 by done. cbn. f_equal. apply marks_none.
    intros i sl Hi. by rewrite (H (S i) sl Hi).
  - rewrite bool_decide_eq_false_2 by done.
    apply (IH a); [cbn in Hlen; lia|].
    intros i sl Hi. rewrite (H (S i) sl Hi).
    apply bool_decide_ext. lia.
Qed.

Lemma Inv_count s : Inv s -> count_active s = 1%nat.
Proof.
  intros [Hr Hm _ _ _]. unfold count_active, slideCount in *.
  apply (marks_count _ (Z.to_nat (activeIndex s))); [lia|].
  intros i sl Hi. rewrite (Hm i sl Hi).
  destruct (Z.eqb_spec (Z.of_nat i) (activeIndex s)).
  - rewrite bool_decide_eq_true_2; [done|lia].
  - rewrite bool_decide_eq_false_2; [done|lia].
Qed.

(** ** What the events leave alone *)

Lemma same_show_refl s : same_show s s.
Proof. by repeat split. Qed.

Lemma same_show_trans s1 s2 s3 :
  same_show s1 s2 -> same_show s2 s3 -> same_show s1 s3.
Proof. unfold same_show. intuition congruence. Qed.

(** While a transition is in flight, nothing but its completion touches
    what is shown, and no listener throws. *)
Lemma step_busy s e :
  isAnimating s = true -> isCompletion e = false ->
  same_show s (step s e) /\ threw (handler e) s = false.
Proof.
  intros Hb He. unfold same_show.
  destruct e; try done; unfold_handlers; crush_state s.
Qed.

(** ** Closed forms of the listeners *)

Lemma startAutoplay_eq s : startAutoplay s = (Returned tt, restarted s).
Proof.
  unfold startAutoplay, restarted, bind, get, modify.
  destruct s as [sl bp bn ec et a an rm [] ad ac iv tl tr fr]; done.
Qed.

Lemma resetAutoplay_eq s : resetAutoplay s = (Returned tt, restarted s).
Proof.
  unfold resetAutoplay, bind, get. cbn.
  destruct (autoplayEnabled s) eqn:He; cbn.
  - apply startAutoplay_eq.
  - unfold restarted. by rewrite He.
Qed.

Lemma goTo_valid s t :
  0 <= activeIndex s < slideCount s -> 0 <= t < slideCount s ->
  goTo t s = (Returned tt, moved t s).
Proof.
  intros Ha Ht. unfold moved.
  destruct (isAnimating s) eqn:Hb.
  - rewrite goTo_guard; [done|by left].
  - destruct (Z.eqb_spec t (activeIndex s)) as [->|Hne].
    + rewrite goTo_guard; [done|by right].
    + by rewrite goTo_start.
Qed.

Lemma nextTarget_mod s :
  0 <= activeIndex s < slideCount s ->
  nextTarget s = (activeIndex s + 1) mod slideCount s
  /\ 0 <= nextTarget s < slideCount s.
Proof.
  intros H. unfold nextTarget, Js.rem.
  rewrite Z.rem_mod_nonneg by lia.
  split; [done|]. apply Z.mod_pos_bound. lia.
Qed.

Lemma prevTarget_mod s :
  0 <= activeIndex s < slideCount s ->
  prevTarget s = (activeIndex s - 1 + slideCount s) mod slideCount s
  /\ 0 <= prevTarget s < slideCount s.
Proof.
  intros H. unfold prevTarget, Js.rem.
  rewrite Z.rem_mod_nonneg by lia.
  split; [done|]. apply Z.mod_pos_bound. lia.
Qed.

Lemma same_show_restarted s : same_show s (restarted s).
Proof.
  unfold restarted. destruct (autoplayEnabled s) eqn:He; [|apply same_show_refl].
  by destruct s.
Qed.

Lemma restarted_targets s :
  nextTarget (restarted s) = nextTarget s
  /\ prevTarget (restarted s) = prevTarget s
  /\ slideCount (restarted s) = slideCount s
  /\ activeIndex (restarted s) = activeIndex s.
Proof.
  unfold restarted. destruct (autoplayEnabled s); [|done]. by destruct s.
Qed.

Lemma next_eq s :
  0 <= activeIndex s < slideCount s ->
  next s = (Returned tt, moved (nextTarget s) (restarted s)).
Proof.
  intros Ha. unfold next, bind, get. rewrite resetAutoplay_eq.
  destruct (restarted_targets s) as (Hn & _ & Hc & Hi).
  rewrite goTo_valid; rewrite ?Hn, ?Hc, ?Hi; [done|done|].
  by apply nextTarget_mod.
Qed.

Lemma prev_eq s :
  0 <= activeIndex s < slideCount s ->
  prev s = (Returned tt, moved (prevTarget s) (restarted s)).
Proof.
  intros Ha. unfold prev, bind, get. rewrite resetAutoplay_eq.
  destruct (restarted_targets s) as (_ & Hp & Hc & Hi).
  rewrite goTo_valid; rewrite ?Hp, ?Hc, ?Hi; [done|done|].
  by apply prevTarget_mod.
Qed.

Lemma moved_range s t :
  0 <= activeIndex s < slideCount s ->
  0 <= activeIndex (moved t s) < slideCount (moved t s).
Proof.
  unfold moved. destruct (isAnimating s || (t =? activeIndex s)); [done|].
  by destruct s.
Qed.

Lemma autoplayCallback_eq s :
  0 <= activeIndex s < slideCount s ->
  autoplayCallback s =
    (Returned tt,
     if negb (isInView s) || isAnimating s then restarted s
     else restarted (moved (nextTarget s) s)).
Proof.
  intros Ha. unfold autoplayCallback, bind, get.
  destruct (negb (isInView s) || isAnimating s); [apply startAutoplay_eq|].
  rewrite goTo_valid by (done || by apply nextTarget_mod).
  apply startAutoplay_eq.
Qed.

(** ** The invariant is kept *)

Lemma Inv_same s s' : Inv s -> same_show s s' -> timer_ok s' -> Inv s'.
Proof.
  intros [Hr Hm Ht Hb _] (Hs & Ha & Hn & Hl & _) Hk.
  unfold slideCount in *.
  split; unfold slideCount; rewrite ?Hs, ?Ha, ?Hn, ?Hl; done.
Qed.

Lemma timer_ok_restarted s : timer_ok s -> timer_ok (restarted s).
Proof.
  unfold restarted, timer_ok.
  destruct (autoplayEnabled s) eqn:He; [|by rewrite He].
  by destruct s.
Qed.

Lemma Inv_restarted s : Inv s -> Inv (restarted s).
Proof.
  intros H. apply (Inv_same s); [done|apply same_show_restarted|].
  apply timer_ok_restarted, H.
Qed.

Lemma Inv_started s t :
  Inv s -> isAnimating s = false -> t <> activeIndex s ->
  0 <= t < slideCount s -> Inv (started t s).
Proof.
  intros [Hr Hm Ht Hb Hk] Hidle Hne Hrange.
  destruct s as [sl bp bn ec et a an rm ae ad ac iv tl tr fr].
  split; cbn in *; try done.
  intros t' [= <-]. done.
Qed.

Lemma Inv_moved s t : Inv s -> 0 <= t < slideCount s -> Inv (moved t s).
Proof.
  intros H Ht. unfold moved.
  destruct (isAnimating s) eqn:Hb; [done|].
  destruct (Z.eqb_spec t (activeIndex s)); [done|].
  by apply Inv_started.
Qed.

Lemma complete_eq s t :
  Inv s -> timeline s = Some t ->
  complete s = (Returned tt, settled t (set_timeline None s)).
Proof.
  intros [Hr Hm Ht Hb Hk] Htl.
  destruct (Ht t Htl) as (_ & Hrange & _).
  destruct (index_Some (slides s) (activeIndex s) Hr) as [o Ho].
  destruct (index_Some (slides s) t Hrange) as [i Hi].
  unfold complete, bind, get, modify. rewrite Htl.
  by apply (onComplete_defined _ _ o i).
Qed.

Lemma Inv_settled s t :
  Inv s -> timeline s = Some t -> Inv (settled t (set_timeline None s)).
Proof.
  intros [Hr Hm Ht Hb Hk] Htl.
  destruct (Ht t Htl) as (_ & Hrange & _).
  unfold slideCount in *.
  split; unfold slideCount, settled; cbn; rewrite ?length_alter; try done.
  apply marks_swap; [lia|lia|done].
Qed.

Lemma Inv_step s e :
  Inv s -> Inv (step s e) /\ threw (handler e) s = false.
Proof.
  intros H. pose proof (inv_range s H) as Hr.
  pose proof (nextTarget_mod s Hr) as [_ Hn].
  pose proof (prevTarget_mod s Hr) as [_ Hp].
  assert (Inv (moved (nextTarget s) (restarted s))) as Hnext.
  { apply Inv_moved; [by apply Inv_restarted|].
    by destruct (restarted_targets s) as (_ & _ & -> & _). }
  assert (Inv (moved (prevTarget s) (restarted s))) as Hprev.
  { apply Inv_moved; [by apply Inv_restarted|].
    by destruct (restarted_targets s) as (_ & _ & -> & _). }
  destruct e; unfold step, exec, threw, handler.
  6-11: split; [|by unfold_handlers; crush_state s].
  6-11: apply (Inv_same s); [done|by unfold_handlers; crush_state s|].
  6-11: pose proof (inv_timer s H) as Hk; unfold timer_ok in *.
  6-11: clear H Hr Hn Hp Hnext Hprev.
  6-11: unfold_handlers; crush_state s; intuition congruence.
  - unfold bind, get, when. destruct (btnNext s); [|done].
    by rewrite next_eq.
  - unfold bind, get, when. destruct (btnPrev s); [|done].
    by rewrite prev_eq.
  - unfold onKeyDown, bind, get, when.
    destruct (negb (isInView s)); [done|].
    destruct (isTypingTarget e); [done|].
    destruct (String.eqb (key e) "ArrowRight");
      destruct (String.eqb (key e) "ArrowLeft");
      rewrite ?next_eq by done; cbn; try done;
      [|by rewrite prev_eq].
    rewrite prev_eq by (by apply moved_range, (inv_range _ (Inv_restarted _ H))).
    cbn. split; [|done].
    apply Inv_moved; [by apply Inv_restarted|].
    destruct (restarted_targets (moved (nextTarget s) (restarted s)))
      as (_ & _ & -> & _).
    apply prevTarget_mod, (inv_range _ Hnext).
  - unfold elapse, bind, get, modify.
    destruct (autoplayCall s) as [t|] eqn:Hc; [|done].
    destruct (t_paused t); [done|].
    destruct (Z.of_N ms <? t_remaining t).
    + cbn. split; [|done].
      apply (Inv_same s); [done|by destruct s|].
      pose proof (inv_timer s H) as Hk. unfold timer_ok in *.
      destruct s; cbn in *. rewrite <- Hk, Hc. done.
    + rewrite autoplayCallback_eq by done. cbn. split; [|done].
      destruct (negb (isInView s) || isAnimating s);
        [by apply Inv_restarted|].
      by apply Inv_restarted, Inv_moved.
  - destruct (timeline s) as [t|] eqn:Htl.
    + rewrite (complete_eq s t H Htl). cbn. split; [|done].
      by apply Inv_settled.
    + unfold complete, bind, get. by rewrite Htl.
Qed.

(** ** Initialization *)

Lemma emits_app xs ys s : emits (xs ++ ys) s = emits xs (emits ys s).
Proof. destruct s; cbn. unfold emits; cbn. by rewrite app_assoc. Qed.

Lemma forEach_list_emit {A} (c : A -> Call) (l : list A) : forall s,
  forEach_list l (fun el => modify (emit (c el))) s
  = (Returned tt, emits (reverse (c <$> l)) s).
Proof.
  induction l as [|x l IH]; intros s.
  - cbn. by rewrite emits_nil.
  - cbn [forEach_list]. rewrite fmap_cons, reverse_cons, emits_app.
    unfold bind, modify at 1. rewrite IH. by destruct s.
Qed.

Lemma forEach_from_inv (P : nat -> State -> Prop) (f : nat -> M unit) :
  forall n i s,
    P i s ->
    (forall j s', (i <= j < i + n)%nat -> P j s' ->
                  fst (f j s') = Returned tt /\ P (S j) (snd (f j s'))) ->
    fst (forEach_from i n f s) = Returned tt
    /\ P (i + n)%nat (snd (forEach_from i n f s)).
Proof.
  induction n as [|n IH]; intros i s HP Hf; cbn.
  - by rewrite Nat.add_0_r.
  - unfold bind. destruct (Hf i s ltac:(lia) HP) as [Hr HP'].
    destruct (f i s) as [[[]|] s1]; [|done]. cbn in *.
    replace (i + S n)%nat with (S i + n)%nat by lia.
    apply IH; [done|]. intros j s' Hj. apply Hf. lia.
Qed.

Lemma same_config_refl s : same_config s s.
Proof. by repeat split. Qed.

Lemma same_config_trans s1 s2 s3 :
  same_config s1 s2 -> same_config s2 s3 -> same_config s1 s3.
Proof. unfold same_config. intuition congruence. Qed.

Lemma meta_alter (f : Slide -> Slide) (i : nat) (l : list Slide) :
  (forall sl, meta (f sl) = meta sl) ->
  meta <$> alter f i l = meta <$> l.
Proof.
  intros Hf. apply list_eq. intros j. rewrite !list_lookup_fmap.
  destruct (decide (i = j)) as [->|Hne].
  - rewrite list_lookup_alter_eq. destruct (l !! j); cbn; [|done].
    by rewrite Hf.
  - by rewrite list_lookup_alter_ne.
Qed.

Lemma meta_length (l l' : list Slide) :
  meta <$> l' = meta <$> l -> length l' = length l.
Proof. intros H. apply (f_equal length) in H. by rewrite !length_fmap in H. Qed.

Lemma meta_lookup (l l' : list Slide) i sl' :
  meta <$> l' = meta <$> l -> l' !! i = Some sl' ->
  exists sl, l !! i = Some sl /\ meta sl = meta sl'.
Proof.
  intros H Hi.
  assert ((meta <$> l) !! i = Some (meta sl')) as Hm
    by (by rewrite <- H, list_lookup_fmap, Hi).
  rewrite list_lookup_fmap in Hm. apply fmap_Some in Hm as (sl & ? & ?).
  by exists sl.
Qed.

(** The first loop of the set-up: every slide marked against
    [activeIndex], one [gsap.set] each. *)
Lemma setup_marks s0 :
  let a := activeIndex s0 in
  exists s,
    forEach_from 0 (length (slides s0))
      (fun i => setSlideState (Z.of_nat i) (Z.of_nat i =? a)) s0
    = (Returned tt, s)
    /\ same_config s0 s /\ marks a (slides s) /\ (still s0 -> still s)
    /\ elCurrent s = elCurrent s0.
Proof.
  intros a.
  pose (P := fun (j : nat) (s' : State) =>
    same_config s0 s'
    /\ (forall k sl, (k < j)%nat -> slides s' !! k = Some sl ->
                     is_active sl = (Z.of_nat k =? a))
    /\ (still s0 -> still s') /\ elCurrent s' = elCurrent s0).
  destruct (forEach_from_inv P
              (fun i => setSlideState (Z.of_nat i) (Z.of_nat i =? a))
              (length (slides s0)) 0%nat s0) as [Hr (Hc & Hm & Hs & He)].
  - split; [apply same_config_refl|]. split; [lia|done].
  - intros j s' Hj (Hc & Hm & Hs & He).
    pose proof (meta_length _ _ (proj2 (proj2 (proj2 (proj2 (proj2 (proj2
      (proj2 (proj2 (proj2 Hc)))))))))) as Hlen.
    destruct (index_Some (slides s') (Z.of_nat j)) as [sl Hsl]; [lia|].
    rewrite (setSlideState_defined _ _ _ _ Hsl). rewrite Nat2Z.id. cbn.
    split; [done|]. split; [|split; [|split]].
    + apply (same_config_trans _ s'); [done|].
      destruct s'; repeat split; cbn. by apply meta_alter.
    + intros k sl' Hk. destruct s'; cbn in *.
      destruct (decide (k = j)) as [->|Hne].
      * rewrite list_lookup_alter_eq. intros Hl.
        by apply fmap_Some in Hl as (x & _ & ->).
      * rewrite list_lookup_alter_ne by done. apply Hm. lia.
    + intros H0. specialize (Hs H0). destruct s'; unfold still in *; cbn in *.
      by constructor.
    + by destruct s'.
  - destruct (forEach_from _ _ _ s0) as [[[]|] s]; [|done].
    exists s. cbn in *. split; [done|]. split; [done|]. split; [|done].
    intros i sl Hi. apply (Hm i sl); [|done].
    apply lookup_lt_Some in Hi.
    rewrite <- (meta_length _ _ (proj2 (proj2 (proj2 (proj2 (proj2 (proj2
      (proj2 (proj2 (proj2 Hc)))))))))). done.
Qed.

Lemma marks_fmap a (l l' : list Slide) :
  is_active <$> l' = is_active <$> l -> marks a l -> marks a l'.
Proof.
  intros H Hm i sl' Hi.
  assert ((is_active <$> l) !! i = Some (is_active sl')) as Hl
    by (by rewrite <- H, list_lookup_fmap, Hi).
  rewrite list_lookup_fmap in Hl. apply fmap_Some in Hl as (sl & Hsl & ->).
  by apply Hm.
Qed.

Lemma active_alter (f : Slide -> Slide) (i : nat) (l : list Slide) :
  (forall sl, is_active (f sl) = is_active sl) ->
  is_active <$> alter f i l = is_active <$> l.
Proof.
  intros Hf. apply list_eq. intros j. rewrite !list_lookup_fmap.
  destruct (decide (i = j)) as [->|Hne].
  - rewrite list_lookup_alter_eq. destruct (l !! j); cbn; [|done].
    by rewrite Hf.
  - by rewrite list_lookup_alter_ne.
Qed.

(** The second loop of the set-up: a SplitText instance for every split
    target of every slide. [reduceMotion] is not consulted. *)
Lemma setup_splits s0 :
  exists s,
    createSplits s0 = (Returned tt, s)
    /\ same_config s0 s
    /\ is_active <$> slides s = is_active <$> slides s0
    /\ (still s0 -> still s)
    /\ elCurrent s = elCurrent s0
    /\ forall k sl el, slides s0 !! k = Some sl -> el ∈ splitTargets sl ->
                       SplitText_create k el ∈ trace s.
Proof.
  unfold createSplits, bind at 1, get. cbn.
  pose (P := fun (j : nat) (s' : State) =>
    same_config s0 s'
    /\ is_active <$> slides s' = is_active <$> slides s0
    /\ (still s0 -> still s') /\ elCurrent s' = elCurrent s0
    /\ forall k sl el, (k < j)%nat -> slides s0 !! k = Some sl ->
                       el ∈ splitTargets sl -> SplitText_create k el ∈ trace s').
  match goal with
  | |- context [forEach_from 0 _ ?f s0] =>
      destruct (forEach_from_inv P f (length (slides s0)) 0%nat s0)
        as [Hr (Hc & Ha & Hs & He & Ht)]
  end.
  - split; [apply same_config_refl|]. repeat split; try done. lia.
  - intros j s' Hj (Hc & Ha & Hs & He & Ht).
    pose proof (proj2 (proj2 (proj2 (proj2 (proj2 (proj2
      (proj2 (proj2 (proj2 Hc))))))))) as Hmeta.
    pose proof (meta_length _ _ Hmeta) as Hlen.
    destruct (lookup_lt_is_Some_2 (slides s') j) as [slide Hslide]; [lia|].
    unfold bind, get. rewrite Hslide. rewrite forEach_list_emit. cbn.
    split; [done|].
    destruct (meta_lookup _ _ _ _ Hmeta Hslide) as (sl0 & Hsl0 & Hm0).
    injection Hm0 as _ Htargets.
    split; [|split; [|split; [|split]]].
    + apply (same_config_trans _ s'); [done|].
      destruct s'; repeat split; cbn. by apply meta_alter.
    + rewrite <- Ha. destruct s'; cbn. by apply active_alter.
    + intros H0. specialize (Hs H0). destruct s'; unfold still in *; cbn in *.
      apply Forall_app. split; [|done].
      apply Forall_forall. intros c Hc'.
      rewrite elem_of_reverse, list_elem_of_fmap in Hc'.
      by destruct Hc' as (el & -> & _).
    + by destruct s'.
    + intros k sl el Hk Hsl Hel. destruct s'; cbn in *.
      apply elem_of_app.
      destruct (decide (k = j)) as [->|Hne].
      * left. rewrite elem_of_reverse, list_elem_of_fmap. exists el.
        split; [done|]. rewrite Hsl in Hsl0. injection Hsl0 as <-.
        by rewrite <- Htargets.
      * right. apply (Ht k sl el); [lia|done|done].
  - destruct (forEach_from _ _ _ s0) as [[[]|] s]; [|done].
    exists s. cbn in *. split; [done|]. split; [done|]. split; [done|].
    split; [done|]. split; [done|].
    intros k sl el Hk. apply (Ht k sl el); [|done].
    by apply lookup_lt_Some in Hk.
Qed.

Lemma findIndex_from_range items : forall i,
  findIndex_from i items = -1
  \/ i <= findIndex_from i items < i + Z.of_nat (length items).
Proof.
  induction items as [|it r IH]; intros i; cbn; [by left|].
  destruct (m_active it); [right; lia|].
  destruct (IH (i + 1)) as [->|H]; [by left|right; lia].
Qed.

(** What the set-up leaves behind. *)
Lemma init_spec w reduce s :
  init w reduce = Some s ->
  exists items,
    w_list w = Some items
    /\ length (slides s) = length items
    /\ 0 <= activeIndex s < slideCount s
    /\ marks (activeIndex s) (slides s)
    /\ isAnimating s = false /\ timeline s = None
    /\ reduceMotion s = reduce /\ isInView s = true
    /\ autoplayEnabled s = read_autoplayEnabled (w_autoplay w)
    /\ autoplayDuration s = read_autoplayDuration (w_autoplay_duration w)
    /\ autoplayCall s = (if autoplayEnabled s
                         then Some (mkTimer 0 (autoplayDuration s) false)
                         else None)
    /\ still s
    /\ forall k it el, items !! k = Some it ->
                       el ∈ option_list (m_text it) ++ m_split it ->
                       SplitText_create k el ∈ trace s.
Proof.
  unfold init. destruct (w_list w) as [items|] eqn:Hl; [|done].
  destruct items as [|it0 items']; [done|].
  set (items := it0 :: items') in *. intros [= Hs]. exists items.
  split; [done|].
  set (s0 := initial w items).
  assert (0 <= activeIndex s0 < Z.of_nat (length items)) as Hrange.
  { subst s0. cbn [initial activeIndex]. unfold findIndex.
    destruct (findIndex_from_range items 0) as [->|H]; [cbn; lia|].
    destruct (Z.ltb_spec (findIndex_from 0 items) 0); cbn in *; lia. }
  assert (length (slides s0) = length items) as Hlen0
    by (subst s0; unfold initial; cbn [slides]; apply length_fmap).
  fold s0 in Hs. unfold setup, exec, bind at 1, get in Hs. cbn beta iota in Hs.
  destruct (setup_marks s0) as (s1 & E1 & C1 & M1 & S1 & _).
  unfold bind at 1 in Hs. rewrite E1 in Hs.
  destruct C1 as (Ca & Cb & Ct & Cc & Cf & Ce & Cd & Cr & Cv & Cm).
  pose proof (meta_length _ _ Cm) as Hlen1.
  set (s3 := snd ((updateCounter >> when reduce (onMedia true)) s1)).
  assert ((updateCounter >> when reduce (onMedia true)) s1 = (Returned tt, s3)
          /\ slides s3 = slides s1 /\ activeIndex s3 = activeIndex s1
          /\ isAnimating s3 = isAnimating s1 /\ timeline s3 = timeline s1
          /\ autoplayCall s3 = autoplayCall s1 /\ serial s3 = serial s1
          /\ autoplayEnabled s3 = autoplayEnabled s1
          /\ autoplayDuration s3 = autoplayDuration s1
          /\ reduceMotion s3 = (if reduce then true else reduceMotion s1)
          /\ isInView s3 = isInView s1 /\ trace s3 = trace s1)
    as (E3 & F1 & F2 & F3 & F4 & F5 & F6 & F7 & F8 & F9 & F10 & F11).
  { subst s3. unfold updateCounter, onMedia, when, bind, get, modify.
    destruct s1 as [sl bp bn [] et a an rm ae ad ac iv tl tr fr], reduce; done. }
  assert (forall k : M unit,
            (updateCounter >> when reduce (onMedia true) >> k) s1 = k s3) as E3'.
  { intros k. unfold bind at 1 2. unfold bind in E3.
    destruct (updateCounter s1) as [[[]|] s2]; [|done].
    by rewrite E3. }
  rewrite E3' in Hs.
  destruct (setup_splits s3) as (s4 & E4 & C4 & A4 & S4 & _ & T4).
  unfold bind at 1 in Hs. rewrite E4, startAutoplay_eq in Hs. cbn [snd] in Hs.
  destruct C4 as (Da & Db & Dt & Dc & Df & De & Dd & Dr & Dv & Dm).
  pose proof (meta_length _ _ Dm) as Hlen4.
  assert (marks (activeIndex s4) (slides s4)) as M4.
  { apply (marks_fmap _ (slides s3)); [done|].
    by rewrite Da, F1, F2, Ca. }
  assert (still s4) as St4.
  { apply S4. unfold still. rewrite F11. apply S1. subst s0. constructor. }
  assert (forall k it el, items !! k = Some it ->
            el ∈ option_list (m_text it) ++ m_split it ->
            SplitText_create k el ∈ trace s4) as Tr4.
  { intros k it el Hk Hel.
    assert (slides s0 !! k = Some (slide_of it)) as H0
      by (subst s0; unfold initial; cbn [slides];
          by rewrite list_lookup_fmap, Hk).
    assert (meta <$> slides s3 = meta <$> slides s0) as Hm3
      by (by rewrite F1).
    assert ((meta <$> slides s3) !! k = Some (meta (slide_of it))) as H3
      by (by rewrite Hm3, list_lookup_fmap, H0).
    rewrite list_lookup_fmap in H3.
    apply fmap_Some in H3 as (sl3 & Hsl3 & Hmeta3).
    apply (T4 k sl3 el Hsl3).
    injection Hmeta3 as _ <-. done. }
  assert (autoplayCall s4 = None /\ serial s4 = 0%nat
          /\ autoplayEnabled s4 = read_autoplayEnabled (w_autoplay w)
          /\ autoplayDuration s4
             = read_autoplayDuration (w_autoplay_duration w)
          /\ isAnimating s4 = false /\ timeline s4 = None
          /\ reduceMotion s4 = reduce /\ isInView s4 = true)
    as (G1 & G2 & G3 & G4 & G5 & G6 & G7 & G8).
  { rewrite Dc, F5, Cc, Df, F6, Cf, De, F7, Ce, Dd, F8, Cd, Db, F3, Cb, Dt, F4,
      Ct, Dr, F9, Cr, Dv, F10, Cv.
    subst s0. cbn. by destruct reduce. }
  assert (length (slides s4) = length items) as L4
    by (by rewrite Hlen4, F1, Hlen1).
  assert (0 <= activeIndex s4 < Z.of_nat (length (slides s4))) as R4
    by (by rewrite L4, Da, F2, Ca).
  clear - Hs L4 R4 M4 St4 Tr4 G1 G2 G3 G4 G5 G6 G7 G8.
  subst s. unfold restarted, slideCount. rewrite G3.
  destruct (read_autoplayEnabled (w_autoplay w)) eqn:Hen;
    destruct s4 as [sl bp bn ec et a an rm ae ad ac iv tl tr fr];
    cbn in *; subst; rewrite ?Hen; done.
Qed.

Lemma Inv_init w reduce s : init w reduce = Some s -> Inv s.
Proof.
  intros H. destruct (init_spec _ _ _ H)
    as (items & _ & _ & Hr & Hm & Hb & Ht & _ & _ & _ & _ & Hc & _).
  split; try done.
  - by rewrite Ht.
  - by rewrite Hb.
  - unfold timer_ok. rewrite Hc. by destruct (autoplayEnabled s).
Qed.

Lemma reachable_Inv s : reachable s -> Inv s.
Proof.
  induction 1 as [w reduce s H|s e _ IH].
  - by apply (Inv_init w reduce).
  - by apply Inv_step.
Qed.

Lemma reachable_run s es : reachable s -> reachable (run s es).
Proof.
  revert s. induction es as [|e es IH]; intros s H; [done|].
  cbn. apply IH. by constructor.
Qed.

Lemma run_Inv s es : Inv s -> Inv (run s es).
Proof.
  revert s. induction es as [|e es IH]; intros s H; [done|].
  cbn. apply IH. by apply Inv_step.
Qed.

(** A transition in flight is left alone by every run of events that does
    not complete it. *)
Lemma run_busy s es :
  isAnimating s = true -> forallb (fun e => negb (isCompletion e)) es = true ->
  same_show s (run s es).
Proof.
  revert s. induction es as [|e es IH]; intros s Hb Hes; [apply same_show_refl|].
  cbn in Hes. apply andb_true_iff in Hes as [He Hes].
  apply negb_true_iff in He.
  destruct (step_busy s e Hb He) as [Hs _].
  cbn. apply (same_show_trans _ (step s e)); [done|].
  apply IH; [|done]. destruct Hs as (_ & _ & -> & _). done.
Qed.

(** ** A carousel locked by an undefined target *)

Lemma Locked_step a s e : Locked a s -> Locked a (step s e).
Proof.
  intros (Hb & Ha & Ht).
  destruct (isCompletion e) eqn:He.
  - destruct e; try done. unfold step, exec, handler, complete, bind, get.
    destruct (timeline s) as [t|] eqn:Htl;
      [|cbn; repeat split; try done; intros t'; by rewrite Htl].
    unfold modify.
    destruct (onComplete_undefined (set_timeline None s) t)
      as (_ & Hb' & Ha' & Ht' & _).
    { destruct s; cbn in *. by apply Ht. }
    unfold exec in *. repeat split.
    + rewrite Hb'. by destruct s.
    + rewrite Ha'. by destruct s.
    + rewrite Ht'. by destruct s.
  - destruct (step_busy s e Hb He) as [(Hs & Hi & Hn & Hl & _) _].
    repeat split; rewrite ?Hs, ?Hi, ?Hn, ?Hl; done.
Qed.

Lemma Locked_run a s es : Locked a s -> Locked a (run s es).
Proof.
  revert s. induction es as [|e es IH]; intros s H; [done|].
  cbn. by apply IH, Locked_step.
Qed.

(** ** A carousel with one slide *)

Lemma Single_step s e : Single s -> Single (step s e) /\ threw (handler e) s = false.
Proof.
  intros (Hl & Ha & Hb & Ht & Hs). unfold Single, still in *.
  destruct s as [sl bp bn ec et a an rm ae ad ac iv tl tr fr]; cbn in *.
  destruct sl as [|x [|y sl]]; try done. subst.
  destruct e; unfold_handlers; unfold slideCount, Js.rem in *; branch;
    repeat split; try done; by repeat constructor.
Qed.

Lemma Single_run s es : Single s -> Single (run s es).
Proof.
  revert s. induction es as [|e es IH]; intros s H; [done|].
  cbn. by apply IH, Single_step.
Qed.

(** ** Non-numeric attribute values *)


Lemma parseInt_cons_other c s :
  Js.isWhiteSpace c = false ->
  Js.parseInt (c :: s) =
    match Js.digitsPrefix (if Js.isSign c then s else c :: s) with
    | [] => Js.NaN
    | ds => Js.Num ((if (c =? Js.minus_sign)%N then -1 else 1) * Js.mathInt ds)
    end.
Proof.
  intros H. unfold Js.parseInt. cbn [Js.trimStart]. rewrite H.
  by destruct (Js.isSign c).
Qed.

Lemma sign_not_digit c : Js.isSign c = true -> Js.isDigit c = false.
Proof.
  unfold Js.isSign, Js.isDigit, Js.plus_sign, Js.minus_sign.
  intros [->%N.eqb_eq| ->%N.eqb_eq]%orb_true_iff; done.
Qed.


Lemma digit_plain c :
  Js.isDigit c = true ->
  Js.isWhiteSpace c = false /\ Js.isSign c = false
  /\ (c =? Js.minus_sign)%N = false.
Proof.
  unfold Js.isDigit, Js.isWhiteSpace, Js.isSign, Js.plus_sign, Js.minus_sign.
  intros [H1%N.leb_le H2%N.leb_le]%andb_true_iff.
  repeat split.
  - repeat (apply orb_false_iff; split);
      try (apply andb_false_iff; left; apply N.leb_gt; lia);
      try (apply andb_false_iff; right; apply N.leb_gt; lia);
      apply N.eqb_neq; lia.
  - apply orb_false_iff; split; apply N.eqb_neq; lia.
  - apply N.eqb_neq; lia.
Qed.



(** A text without a number to read is not a numeral. *)
Lemma NoNumber_NonNumeric s : NoNumber s -> NonNumeric s.
Proof.
  unfold NonNumeric, isNumeral.
  destruct 1 as [|c s Hw _|c s Hs Hd|c s Hw Hs Hd].
  - done.
  - assert (Js.isSign c = false) as ->.
    { destruct (Js.isSign c) eqn:Hs; [|done].
      unfold Js.isSign, Js.plus_sign, Js.minus_sign in Hs.
      apply orb_true_iff in Hs as [->%N.eqb_eq| ->%N.eqb_eq]; done. }
    assert (Js.isDigit c = false) as Hd.
    { destruct (Js.isDigit c) eqn:Hd; [|done].
      destruct (digit_plain c Hd) as [Hw' _]. congruence. }
    cbn. by rewrite Hd.
  - rewrite Hs. destruct s as [|d s]; [done|].
    cbn in Hd. cbn. by destruct (Js.isDigit d).
  - rewrite Hs. cbn. by rewrite Hd.
Qed.

(** * The claims *)

(** C1. [goTo(targetIndex)] called while [isAnimating] is true, or with
    [targetIndex] equal to [activeIndex], returns at its guard: it does not
    throw and leaves the whole state as it was, in particular
    [activeIndex], [isAnimating], every slide's "is--active" class, the
    counter text, and the list of requests made to the animation library. *)
Theorem goTo_guard_returns_unchanged (s : State) (targetIndex : Z) :
  isAnimating s = true \/ targetIndex = activeIndex s ->
  goTo targetIndex s = (Returned tt, s)
  /\ activeIndex (exec (goTo targetIndex) s) = activeIndex s
  /\ isAnimating (exec (goTo targetIndex) s) = isAnimating s
  /\ is_active <$> slides (exec (goTo targetIndex) s) = is_active <$> slides s
  /\ elCurrent (exec (goTo targetIndex) s) = elCurrent s
  /\ trace (exec (goTo targetIndex) s) = trace s.
Proof.
  intros H. unfold exec. by rewrite (goTo_guard s targetIndex H).
Qed.

Lemma goTo_guard_returns_unchanged_witness :
  (isAnimating (carousel (sample_wrap 3) false) = true
   \/ 0 = activeIndex (carousel (sample_wrap 3) false))
  /\ goTo 0 (carousel (sample_wrap 3) false)
     = (Returned tt, carousel (sample_wrap 3) false).
Proof.
  split; [right; reflexivity|].
  apply (goTo_guard_returns_unchanged (carousel (sample_wrap 3) false) 0).
  right. reflexivity.
Defined.

Lemma marked_settled s t :
  0 <= activeIndex s < slideCount s -> 0 <= t < slideCount s ->
  t <> activeIndex s ->
  marked (settled t s) (activeIndex s) false /\ marked (settled t s) t true.
Proof.
  intros Ha Ht Hne.
  destruct (index_Some (slides s) (activeIndex s) Ha) as [o Ho].
  destruct (index_Some (slides s) t Ht) as [i Hi].
  unfold marked, settled; cbn. rewrite !index_alter, Ho, Hi.
  split.
  - rewrite bool_decide_eq_false_2 by lia.
    rewrite bool_decide_eq_true_2 by lia. by eexists.
  - rewrite bool_decide_eq_true_2 by lia.
    rewrite bool_decide_eq_false_2 by lia. by eexists.
Qed.

(** C2, as the code has it. For a transition started by [goTo(targetIndex)]
    on a carousel at rest, with [targetIndex] a slide position other than
    the active one: whatever happens before the timeline completes, its
    completion callback runs without throwing, takes the class off the
    outgoing slide, puts it on the target slide, sets [activeIndex] to
    [targetIndex], refreshes the counter and sets [isAnimating] to false.
    It leaves the autoplay timer as it finds it: no delayed call is killed
    or made. *)
Theorem completion_settles_target (s : State) (targetIndex : Z)
    (es : list Event) :
  reachable s ->
  isAnimating s = false ->
  targetIndex <> activeIndex s ->
  0 <= targetIndex < slideCount s ->
  forallb (fun e => negb (isCompletion e)) es = true ->
  let s1 := run (exec (goTo targetIndex) s) es in
  let s2 := step s1 timeline_completes in
  threw (goTo targetIndex) s = false
  /\ isAnimating s1 = true /\ timeline s1 = Some targetIndex
  /\ threw complete s1 = false
  /\ marked s2 (activeIndex s) false
  /\ marked s2 targetIndex true
  /\ activeIndex s2 = targetIndex
  /\ isAnimating s2 = false
  /\ timeline s2 = None
  /\ (elCurrent s <> None ->
      elCurrent s2 = Some (Js.String_ (targetIndex + 1)))
  /\ autoplayCall s2 = autoplayCall s1
  /\ serial s2 = serial s1.
Proof.
  intros Hreach Hidle Hne Hrange Hes s1 s2.
  pose proof (reachable_Inv s Hreach) as HI.
  pose proof (inv_range s HI) as Ha.
  pose proof (goTo_start s targetIndex Hidle Hne Ha Hrange) as Hgo.
  pose proof (Inv_started s targetIndex HI Hidle Hne Hrange) as HI0.
  assert (isAnimating (started targetIndex s) = true) as Hb0 by (by destruct s).
  assert (exec (goTo targetIndex) s = started targetIndex s) as Hex
    by (unfold exec; by rewrite Hgo).
  pose proof (run_busy _ es Hb0 Hes) as Hsame.
  pose proof (run_Inv _ es HI0) as HI1.
  rewrite <- Hex in Hsame, HI1. fold s1 in Hsame, HI1.
  destruct Hsame as (Hsl & Hai & Han & Htl & Hec & _).
  assert (timeline s1 = Some targetIndex) as Htl1
    by (rewrite Htl, Hex; by destruct s).
  assert (activeIndex s1 = activeIndex s) as Hai1
    by (rewrite Hai, Hex; by destruct s).
  assert (slideCount s1 = slideCount s) as Hn1
    by (unfold slideCount; rewrite Hsl, Hex; by destruct s).
  assert (elCurrent s1 = elCurrent s) as Hec1
    by (rewrite Hec, Hex; by destruct s).
  pose proof (complete_eq s1 targetIndex HI1 Htl1) as Hc.
  assert (s2 = settled targetIndex (set_timeline None s1)) as ->
    by (subst s2; unfold step, exec, handler; by rewrite Hc).
  assert (activeIndex (set_timeline None s1) = activeIndex s) as Hai2
    by (rewrite <- Hai1; by destruct s1).
  assert (slideCount (set_timeline None s1) = slideCount s) as Hn2
    by (rewrite <- Hn1; by destruct s1).
  destruct (marked_settled (set_timeline None s1) targetIndex) as [Hout Hin];
    rewrite ?Hai2, ?Hn2; try done.
  rewrite Hai2 in Hout.
  unfold threw. rewrite Hgo, Hc.
  split; [done|]. split; [rewrite Han, Hex; exact Hb0|]. split; [done|].
  split; [done|]. split; [done|]. split; [done|].
  split; [done|]. split; [done|]. split; [done|]. split; [|by destruct s1].
  intros Hsome. unfold settled; cbn.
  rewrite Hec1.
  destruct (elCurrent s) eqn:E; [done|by destruct Hsome].
Qed.

Lemma completion_settles_target_witness :
  let s := carousel (sample_wrap 3) false in
  let s2 := step (run (exec (goTo 2) s) [time_passes 100; click_next])
                 timeline_completes in
  (isAnimating s = false /\ 2 <> activeIndex s /\ 0 <= 2 < slideCount s)
  /\ activeIndex s2 = 2 /\ isAnimating s2 = false.
Proof.
  split; [repeat split; vm_compute; congruence|].
  destruct (completion_settles_target
              (carousel (sample_wrap 3) false) 2 [time_passes 100; click_next]
              ltac:(apply (reachable_init (sample_wrap 3) false);
                    vm_compute; reflexivity)
              ltac:(reflexivity)
              ltac:(vm_compute; congruence)
              ltac:(vm_compute; split; congruence)
              ltac:(reflexivity))
    as (_ & _ & _ & _ & _ & _ & Hi & Hb & _).
  split; [exact Hi|exact Hb].
Defined.

(** C2, as the specification states it, fails: three slides with autoplay
    on, a transition to slide 1 begun, 400 ms gone by. The completion
    callback settles slide 1 and leaves the delayed call with its 3600 ms:
    the timer is not rescheduled. *)
Lemma completion_does_not_reschedule :
  let s := carousel (sample_wrap 3) false in
  let s1 := run (exec (goTo 1) s) [time_passes 400] in
  let s2 := step s1 timeline_completes in
  autoplayEnabled s1 = true
  /\ timeline s1 = Some 1
  /\ activeIndex s2 = 1 /\ isAnimating s2 = false
  /\ autoplayCall s2 = Some (mkTimer 0 3600 false)
  /\ ~ rescheduled s1 s2.
Proof.
  cbv zeta. repeat split; try reflexivity.
  intros (t & Ht & Hrem & _). vm_compute in Ht. injection Ht as <-.
  vm_compute in Hrem. discriminate.
Qed.

(** C3. In every state a carousel can reach, exactly one slide carries the
    class "is--active": so it is at rest between transitions. And when a
    transition is in flight, the state right after its completion callback
    has [isAnimating] false and exactly one active slide. *)
Theorem exactly_one_active (s : State) :
  reachable s ->
  count_active s = 1%nat
  /\ (isAnimating s = true ->
      threw complete s = false
      /\ isAnimating (step s timeline_completes) = false
      /\ count_active (step s timeline_completes) = 1%nat).
Proof.
  intros Hreach. pose proof (reachable_Inv s Hreach) as HI.
  split; [by apply Inv_count|].
  intros Hb.
  destruct (timeline s) as [t|] eqn:Htl; [|by destruct (inv_busy s HI Hb)].
  pose proof (complete_eq s t HI Htl) as Hc.
  unfold threw, step, exec, handler. rewrite Hc. cbn [fst snd].
  split; [done|]. split; [done|].
  apply Inv_count. by apply Inv_settled.
Qed.

Lemma exactly_one_active_witness :
  let s := step (carousel (sample_wrap 3) false) click_next in
  isAnimating s = true
  /\ count_active s = 1%nat
  /\ count_active (step s timeline_completes) = 1%nat.
Proof.
  destruct (exactly_one_active
              (step (carousel (sample_wrap 3) false) click_next)
              ltac:(apply reachable_step;
                    apply (reachable_init (sample_wrap 3) false);
                    vm_compute; reflexivity))
    as [Hone Hafter].
  cbv zeta. split; [reflexivity|]. split; [exact Hone|].
  apply Hafter. reflexivity.
Defined.

Lemma resetAutoplay_exec s : exec resetAutoplay s = restarted s.
Proof. unfold exec. by rewrite resetAutoplay_eq. Qed.

Lemma restarted_timer s :
  autoplayCall (restarted s)
  = if autoplayEnabled s
    then Some (mkTimer (serial s) (autoplayDuration s) false)
    else autoplayCall s.
Proof. unfold restarted. destruct (autoplayEnabled s); [|done]. by destruct s. Qed.

Lemma moved_timer s t :
  autoplayCall (moved t s) = autoplayCall s /\ serial (moved t s) = serial s
  /\ autoplayEnabled (moved t s) = autoplayEnabled s
  /\ autoplayDuration (moved t s) = autoplayDuration s
  /\ activeIndex (moved t s) = activeIndex s.
Proof.
  unfold moved. destruct (isAnimating s || (t =? activeIndex s)); [done|].
  by destruct s.
Qed.

(** C4. With N slides (N is at least 1 in every carousel), the click on
    "next" asks [goTo] for (activeIndex + 1) mod N and the click on "prev"
    for (activeIndex - 1 + N) mod N, in both cases after [resetAutoplay],
    which, when autoplay is enabled, replaces the delayed call by a new one
    for the whole duration. With 4 slides and slide 0 active, "prev" asks
    for slide 3, and begins that transition when none is in flight. *)
Theorem next_prev_targets (s : State) :
  reachable s ->
  let N := slideCount s in
  1 <= N
  /\ nextTarget s = (activeIndex s + 1) mod N
  /\ prevTarget s = (activeIndex s - 1 + N) mod N
  /\ next s = goTo (nextTarget s) (exec resetAutoplay s)
  /\ prev s = goTo (prevTarget s) (exec resetAutoplay s)
  /\ autoplayCall (exec resetAutoplay s)
     = (if autoplayEnabled s
        then Some (mkTimer (serial s) (autoplayDuration s) false)
        else autoplayCall s)
  /\ autoplayCall (exec next s) = autoplayCall (exec resetAutoplay s)
  /\ autoplayCall (exec prev s) = autoplayCall (exec resetAutoplay s)
  /\ (N = 4 -> activeIndex s = 0 ->
      prevTarget s = 3
      /\ (isAnimating s = false ->
          timeline (exec prev s) = Some 3
          /\ isAnimating (exec prev s) = true)).
Proof.
  intros Hreach N. pose proof (reachable_Inv s Hreach) as HI.
  pose proof (inv_range s HI) as Ha.
  destruct (nextTarget_mod s Ha) as [Hn Hnr].
  destruct (prevTarget_mod s Ha) as [Hp Hpr].
  destruct (restarted_targets s) as (_ & _ & Hc & Hi).
  rewrite resetAutoplay_exec. unfold exec.
  rewrite (next_eq s Ha), (prev_eq s Ha).
  rewrite !goTo_valid by (by rewrite ?Hc, ?Hi).
  cbn [snd]. subst N.
  split; [lia|]. split; [done|]. split; [done|]. split; [done|].
  split; [done|]. split; [apply restarted_timer|].
  split; [apply moved_timer|]. split; [apply moved_timer|].
  intros H4 H0.
  assert (prevTarget s = 3) as H3 by (rewrite Hp, H4, H0; reflexivity).
  split; [done|]. intros Hidle. rewrite H3. unfold moved.
  replace (isAnimating (restarted s)) with false
    by (by destruct (same_show_restarted s) as (_ & _ & -> & _)).
  rewrite Hi, H0. cbn. by destruct (restarted s).
Qed.

Lemma next_prev_targets_witness :
  let s := carousel (sample_wrap 4) false in
  activeIndex s = 0 /\ slideCount s = 4
  /\ prevTarget s = 3 /\ timeline (exec prev s) = Some 3.
Proof.
  destruct (next_prev_targets (carousel (sample_wrap 4) false)
              ltac:(apply (reachable_init (sample_wrap 4) false);
                    vm_compute; reflexivity))
    as (_ & _ & _ & _ & _ & _ & _ & _ & H).
  destruct (H ltac:(reflexivity) ltac:(reflexivity)) as [H3 Hgo].
  cbv zeta. split; [reflexivity|]. split; [reflexivity|].
  split; [exact H3|]. apply Hgo. reflexivity.
Defined.

(** C5. When the delayed call fires: if the carousel is out of view or a
    transition is in flight, nothing that is shown changes, no request is
    made, and a new delayed call is made for the whole duration; otherwise
    [goTo] is asked for (activeIndex + 1) mod N, which begins that
    transition when it is another slide, and a new delayed call is made
    for the whole duration. In no case does the firing itself change
    [activeIndex]. *)
Theorem autoplay_fires (s : State) (tm : Timer) (ms : N) :
  reachable s ->
  autoplayCall s = Some tm -> t_paused tm = false ->
  t_remaining tm <= Z.of_N ms ->
  let s' := step s (time_passes ms) in
  threw (elapse ms) s = false
  /\ autoplayCall s' = Some (mkTimer (serial s) (autoplayDuration s) false)
  /\ activeIndex s' = activeIndex s
  /\ (isInView s = false \/ isAnimating s = true ->
      same_show s s' /\ trace s' = trace s)
  /\ (isInView s = true -> isAnimating s = false ->
      s' = exec startAutoplay (exec (goTo (nextTarget s)) s)
      /\ nextTarget s = (activeIndex s + 1) mod slideCount s
      /\ (nextTarget s <> activeIndex s ->
          timeline s' = Some (nextTarget s) /\ isAnimating s' = true)).
Proof.
  intros Hreach Hc Hp Hrem s'.
  pose proof (reachable_Inv s Hreach) as HI.
  pose proof (inv_range s HI) as Ha.
  destruct (nextTarget_mod s Ha) as [Hn Hnr].
  assert (autoplayEnabled s = true) as Hen
    by (apply (inv_timer s HI); by rewrite Hc).
  assert (elapse ms s = autoplayCallback s) as He.
  { unfold elapse, bind, get. rewrite Hc, Hp.
    by destruct (Z.ltb_spec (Z.of_N ms) (t_remaining tm)); [lia|]. }
  subst s'. unfold threw, step, exec, handler.
  rewrite He, (autoplayCallback_eq s Ha), startAutoplay_eq,
    (goTo_valid s _ Ha Hnr). cbn [fst snd].
  destruct (moved_timer s (nextTarget s)) as (Mc & Ms & Me & Md & Mi).
  split; [done|]. split; [|split; [|split]].
  - destruct (negb (isInView s) || isAnimating s);
      rewrite restarted_timer, ?Me, ?Ms, ?Md, Hen; done.
  - destruct (negb (isInView s) || isAnimating s);
      [apply restarted_targets|].
    destruct (restarted_targets (moved (nextTarget s) s)) as (_ & _ & _ & ->).
    done.
  - intros Hblocked.
    replace (negb (isInView s) || isAnimating s) with true
      by (destruct Hblocked as [-> | ->]; by rewrite ?orb_true_r).
    split; [apply same_show_restarted|].
    unfold restarted. rewrite Hen. by destruct s.
  - intros Hv Hidle. rewrite Hv, Hidle. cbn [negb orb].
    split; [done|]. split; [done|].
    intros Hne. unfold moved. rewrite Hidle.
    apply Z.eqb_neq in Hne. rewrite Hne. cbn [orb].
    unfold restarted. replace (autoplayEnabled (started (nextTarget s) s))
      with true by (by destruct s).
    by destruct s.
Qed.

Lemma autoplay_fires_witness :
  let s := carousel (sample_wrap 3) false in
  let s' := step s (time_passes 4000) in
  autoplayCall s = Some (mkTimer 0 4000 false)
  /\ timeline s' = Some 1
  /\ autoplayCall s' = Some (mkTimer 1 4000 false).
Proof.
  destruct (autoplay_fires (carousel (sample_wrap 3) false)
              (mkTimer 0 4000 false) 4000
              ltac:(apply (reachable_init (sample_wrap 3) false);
                    vm_compute; reflexivity)
              ltac:(vm_compute; reflexivity) ltac:(reflexivity)
              ltac:(vm_compute; congruence))
    as (_ & Hcall & _ & _ & Hgo).
  destruct (Hgo ltac:(reflexivity) ltac:(reflexivity)) as (_ & _ & Htl).
  cbv zeta. split; [reflexivity|].
  split; [apply Htl; vm_compute; congruence|exact Hcall].
Defined.

Lemma paused_wait s tm ws :
  autoplayCall s = Some tm -> t_paused tm = true -> run s (waiting ws) = s.
Proof.
  intros Hc Hp. induction ws as [|ms ws IH]; [done|].
  cbn. replace (step s (time_passes ms)) with s; [done|].
  unfold step, exec, handler, elapse, bind, get. by rewrite Hc, Hp.
Qed.

(** C6. With autoplay enabled and a delayed call pending, leaving the
    viewport (in either direction) pauses that delayed call and keeps its
    remaining time; however long the carousel then stays out of view, the
    state does not move; entering the viewport again (in either direction)
    resumes the same delayed call with the same remaining time. Only when
    there is no delayed call does entering make a new one for the whole
    duration. *)
Theorem viewport_pauses_and_resumes (s : State) (leave enter : Event)
    (wait : list N) :
  autoplayEnabled s = true ->
  isLeave leave = true -> isEnter enter = true ->
  match autoplayCall s with
  | Some tm =>
      let s1 := step s leave in
      let s2 := run s1 (waiting wait) in
      let s3 := step s2 enter in
      isInView s1 = false
      /\ autoplayCall s1 = Some (mkTimer (t_id tm) (t_remaining tm) true)
      /\ s2 = s1
      /\ isInView s3 = true
      /\ autoplayCall s3 = Some (mkTimer (t_id tm) (t_remaining tm) false)
      /\ serial s3 = serial s
  | None =>
      autoplayCall (step s enter)
      = Some (mkTimer (serial s) (autoplayDuration s) false)
  end.
Proof.
  intros Hen Hl He.
  destruct (autoplayCall s) as [tm|] eqn:Hc.
  - intros s1 s2 s3.
    assert (isInView s1 = false
            /\ autoplayCall s1 = Some (mkTimer (t_id tm) (t_remaining tm) true)
            /\ autoplayEnabled s1 = true /\ serial s1 = serial s)
      as (H1 & H2 & H3 & H4).
    { subst s1. destruct leave; try done; unfold_handlers; crush_state s. }
    assert (s2 = s1) as Hs2 by (by apply (paused_wait s1 _ wait H2)).
    split; [done|]. split; [done|]. split; [done|].
    subst s3. rewrite Hs2. clearbody s1. clear - H1 H2 H3 H4 He.
    destruct enter; try done; unfold_handlers; crush_state s1.
  - destruct enter; try done; unfold_handlers; crush_state s.
Qed.

Lemma viewport_pauses_and_resumes_witness :
  let s := step (carousel (sample_wrap 3) false) (time_passes 1500) in
  let s3 := step (run (step s scroll_leave) (waiting [9000%N; 9000%N]))
                 scroll_enterBack in
  autoplayCall s = Some (mkTimer 0 2500 false)
  /\ autoplayCall s3 = Some (mkTimer 0 2500 false).
Proof.
  cbv zeta.
  assert (autoplayCall (step (carousel (sample_wrap 3) false)
                             (time_passes 1500))
          = Some (mkTimer 0 2500 false)) as Hc
    by (vm_compute; reflexivity).
  split; [exact Hc|].
  pose proof (viewport_pauses_and_resumes
                (step (carousel (sample_wrap 3) false) (time_passes 1500))
                scroll_leave scroll_enterBack [9000%N; 9000%N]
                ltac:(vm_compute; reflexivity) ltac:(reflexivity)
                ltac:(reflexivity)) as H.
  rewrite Hc in H. destruct H as (_ & _ & _ & _ & H & _). exact H.
Defined.

(** C7, as the code has it. A transition started while [reduceMotion] is
    set makes a timeline and puts on it exactly two tweens: the outgoing
    item's opacity to 0 and the incoming item's opacity from 0 to 1, both
    400 ms long from the start of the timeline; nothing of it moves lines
    or sets a clip path. In that mode [onSplit] does nothing either. The
    slides are split all the same: whatever the motion preference, the
    set-up has made a SplitText instance for every split target of every
    slide. *)
Theorem reduced_motion_cross_fades (w : Wrap) (reduce : bool) (s0 : State)
    (es : list Event) (targetIndex : Z) :
  init w reduce = Some s0 ->
  let s := run s0 es in
  reduceMotion s = true ->
  isAnimating s = false ->
  targetIndex <> activeIndex s ->
  0 <= targetIndex < slideCount s ->
  let out := Z.to_nat (activeIndex s) in
  let inc := Z.to_nat targetIndex in
  let fade :=
    [tl_fromTo (Item inc) [autoAlpha 0] [autoAlpha 1] 400 power2 at_0;
     tl_to (Item out) [autoAlpha 0] 400 power2 None at_0;
     gsap_timeline] in
  goTo targetIndex s = (Returned tt, started targetIndex s)
  /\ trace (exec (goTo targetIndex) s) = fade ++ trace s
  /\ Forall (fun c => isReveal c = false) fade
  /\ (forall i el, onSplit i el s = (Returned tt, s))
  /\ (forall items k it el,
        w_list w = Some items -> items !! k = Some it ->
        el ∈ option_list (m_text it) ++ m_split it ->
        SplitText_create k el ∈ trace s0).
Proof.
  intros Hinit s Hrm Hidle Hne Hrange out inc fade.
  assert (reachable s) as Hreach
    by (apply reachable_run; by apply (reachable_init w reduce)).
  pose proof (reachable_Inv s Hreach) as HI.
  pose proof (inv_range s HI) as Ha.
  pose proof (goTo_start s targetIndex Hidle Hne Ha Hrange) as Hgo.
  split; [done|]. split; [|split; [|split]].
  - unfold exec. rewrite Hgo. cbn [snd]. unfold started, transition_calls.
    destruct (index_Some (slides s) (activeIndex s) Ha) as [o ->].
    destruct (index_Some (slides s) targetIndex Hrange) as [i ->].
    rewrite Hrm. by destruct s.
  - by repeat constructor.
  - intros i el. unfold onSplit, bind, get. rewrite Hrm.
    by destruct (slides s !! i).
  - intros items k it el Hl Hk Hel.
    destruct (init_spec _ _ _ Hinit)
      as (items' & Hl' & _ & _ & _ & _ & _ & _ & _ & _ & _ & _ & _ & Hsplit).
    rewrite Hl in Hl'. injection Hl' as <-.
    by apply (Hsplit k it el).
Qed.

Lemma reduced_motion_cross_fades_witness :
  let s := run (carousel (sample_wrap 3) false) [media_matches true] in
  reduceMotion s = true
  /\ trace (exec (goTo 2) s)
     = [tl_fromTo (Item 2) [autoAlpha 0] [autoAlpha 1] 400 power2 at_0;
        tl_to (Item 0) [autoAlpha 0] 400 power2 None at_0;
        gsap_timeline] ++ trace s.
Proof.
  cbv zeta. split; [vm_compute; reflexivity|].
  destruct (reduced_motion_cross_fades (sample_wrap 3) false
              (carousel (sample_wrap 3) false) [media_matches true] 2
              ltac:(vm_compute; reflexivity)
              ltac:(vm_compute; reflexivity)
              ltac:(vm_compute; reflexivity)
              ltac:(vm_compute; congruence)
              ltac:(vm_compute; split; congruence))
    as (_ & Htrace & _).
  rewrite Htrace. vm_compute. reflexivity.
Defined.

(** C7, as the specification states it, fails: with the reduced-motion
    preference matching from the start, the set-up still splits the text of
    the slides into lines. *)
Lemma reduced_motion_still_splits :
  let s := carousel (sample_wrap 2) true in
  reduceMotion s = true
  /\ ~ (forall slide el, SplitText_create slide el ∉ trace s).
Proof.
  cbv zeta. split; [vm_compute; reflexivity|].
  intros H. apply (H 0%nat 1%nat).
  apply list_elem_of_In. vm_compute. tauto.
Qed.

(** C8. In a carousel of one slide, whatever events have come, "next" and
    "prev" ask [goTo] for the active slide itself, so [goTo] returns at its
    guard and the state is as before: no timeline is ever made, no
    transition is ever in flight, and [activeIndex] never changes. The
    click listeners as a whole change nothing that is shown and make no
    request. *)
Theorem single_slide_never_transitions (w : Wrap) (reduce : bool)
    (s0 : State) (es : list Event) :
  init w reduce = Some s0 ->
  slideCount s0 = 1 ->
  let s := run s0 es in
  nextTarget s = activeIndex s
  /\ prevTarget s = activeIndex s
  /\ goTo (nextTarget s) s = (Returned tt, s)
  /\ goTo (prevTarget s) s = (Returned tt, s)
  /\ activeIndex s = activeIndex s0
  /\ isAnimating s = false
  /\ timeline s = None
  /\ Forall (fun c => isTransition c = false) (trace s)
  /\ same_show s (exec next s) /\ trace (exec next s) = trace s
  /\ same_show s (exec prev s) /\ trace (exec prev s) = trace s.
Proof.
  intros Hinit Hone s.
  destruct (init_spec _ _ _ Hinit)
    as (items & _ & _ & Hr & _ & Hb & Ht & _ & _ & _ & _ & _ & Hs & _).
  assert (activeIndex s0 = 0) as Ha0 by lia.
  assert (Single s0) as H0.
  { unfold Single. unfold slideCount in Hone. repeat split; try done. lia. }
  pose proof (Single_run s0 es H0) as (Hl & Ha & Hb' & Ht' & Hs').
  fold s in Hl, Ha, Hb', Ht', Hs'. clearbody s. rewrite Ha0.
  clear - Hl Ha Hb' Ht' Hs'. unfold still in *.
  destruct s as [sl bp bn ec et a an rm ae ad ac iv tl tr fr]; cbn in *.
  destruct sl as [|x [|y sl]]; try done. subst.
  unfold same_show, exec, next, prev, resetAutoplay, startAutoplay, goTo,
    nextTarget, prevTarget, slideCount, Js.rem, bind, get, modify, ret.
  destruct ae; cbn; done.
Qed.

Lemma single_slide_never_transitions_witness :
  let s := run (carousel (sample_wrap 1) false)
               [click_next; click_prev; time_passes 4000; click_next] in
  slideCount (carousel (sample_wrap 1) false) = 1
  /\ activeIndex s = 0 /\ timeline s = None.
Proof.
  destruct (single_slide_never_transitions (sample_wrap 1) false
              (carousel (sample_wrap 1) false)
              [click_next; click_prev; time_passes 4000; click_next]
              ltac:(vm_compute; reflexivity) ltac:(vm_compute; reflexivity))
    as (_ & _ & _ & _ & Ha & _ & Ht & _).
  cbv zeta. split; [vm_compute; reflexivity|]. split; [|exact Ht].
  rewrite Ha. vm_compute. reflexivity.
Defined.

(** C9. On a carousel at rest, [goTo] with an index that is no slide
    position (so not the active one) sets [isAnimating], finds
    [slides[nextIndex]] undefined and throws. From then on, whatever events
    come, completion of the half-made timeline included, [isAnimating]
    stays true and [activeIndex] stays what it was: every [goTo] returns at
    its guard, and no listener other than the completion changes what is
    shown. *)
Theorem goTo_out_of_range_locks (s : State) (nextIndex : Z)
    (es : list Event) :
  reachable s ->
  isAnimating s = false ->
  nextIndex < 0 \/ slideCount s <= nextIndex ->
  let s1 := exec (goTo nextIndex) s in
  let s' := run s1 es in
  nextIndex <> activeIndex s
  /\ Js.index (slides s) nextIndex = None
  /\ threw (goTo nextIndex) s = true
  /\ isAnimating s1 = true
  /\ isAnimating s' = true
  /\ activeIndex s' = activeIndex s
  /\ (forall k, goTo k s' = (Returned tt, s'))
  /\ (forall e, isCompletion e = false -> same_show s' (step s' e)).
Proof.
  intros Hreach Hidle Hout s1 s'.
  pose proof (inv_range s (reachable_Inv s Hreach)) as Ha.
  assert (nextIndex <> activeIndex s) as Hne by lia.
  assert (Js.index (slides s) nextIndex = None) as Hundef
    by (apply index_None; unfold slideCount in Hout; lia).
  destruct (goTo_undefined s nextIndex Hidle Hne Hundef)
    as (Hthrew & Hb1 & Ha1 & Hs1 & Ht1).
  fold s1 in Hb1, Ha1, Hs1, Ht1.
  assert (Locked (activeIndex s) s1) as HL.
  { repeat split; try done. intros t. rewrite Ht1, Hs1. by intros [= <-]. }
  destruct (Locked_run _ _ es HL) as (Hb' & Ha' & _). fold s' in Hb', Ha'.
  split; [done|]. split; [done|]. split; [done|]. split; [done|].
  split; [done|]. split; [done|]. split.
  - intros k. apply goTo_guard. by left.
  - intros e He. by apply step_busy.
Qed.

Lemma goTo_out_of_range_locks_witness :
  let s := carousel (sample_wrap 3) false in
  let s' := run (exec (goTo 7) s)
                [click_next; timeline_completes; time_passes 4000;
                 click_prev] in
  (isAnimating s = false /\ slideCount s <= 7)
  /\ isAnimating s' = true /\ activeIndex s' = 0.
Proof.
  destruct (goTo_out_of_range_locks (carousel (sample_wrap 3) false) 7
              [click_next; timeline_completes; time_passes 4000; click_prev]
              ltac:(apply (reachable_init (sample_wrap 3) false);
                    vm_compute; reflexivity)
              ltac:(vm_compute; reflexivity)
              ltac:(right; vm_compute; congruence))
    as (_ & _ & _ & _ & Hb & Ha & _).
  cbv zeta. split; [split; vm_compute; congruence|].
  split; [exact Hb|]. rewrite Ha. vm_compute. reflexivity.
Defined.




(** A duration of 0 is replaced by the default as well. *)
Example duration_zero : read_autoplayDuration (Some (Js.lit "0")) = 4000.
Proof. reflexivity. Qed.

(** * Further properties *)

(** ** The shape of a step *)

Lemma same_show_sym s s' : same_show s s' -> same_show s' s.
Proof. unfold same_show. intuition congruence. Qed.

Lemma same_show_started s s' t :
  same_show s s' -> same_show (started t s) (started t s').
Proof.
  unfold same_show. intros H. destruct s, s'; cbn in *. intuition congruence.
Qed.

Lemma moved_shape s s1 t :
  same_show s s1 ->
  same_show s (moved t s1)
  \/ (isAnimating s = false /\ t <> activeIndex s
      /\ same_show (started t s) (moved t s1)).
Proof.
  intros H. pose proof H as (_ & Ha & Hb & _). unfold moved.
  rewrite Ha, Hb.
  destruct (isAnimating s); [by left|].
  destruct (Z.eqb_spec t (activeIndex s)); [by left|].
  right. split; [done|]. split; [done|]. by apply same_show_started.
Qed.

Lemma arrows_differ k :
  String.eqb k "ArrowRight" = true -> String.eqb k "ArrowLeft" = true -> False.
Proof. intros ->%String.eqb_eq H. by vm_compute in H. Qed.

(** Every event either leaves what is shown alone, or begins a transition
    to a slide position, or settles the transition in flight. *)
Lemma step_shape s e :
  Inv s ->
  same_show s (step s e)
  \/ (exists t, isAnimating s = false /\ t <> activeIndex s
                /\ 0 <= t < slideCount s
                /\ same_show (started t s) (step s e))
  \/ (exists t, timeline s = Some t
                /\ step s e = settled t (set_timeline None s)).
Proof.
  intros H. pose proof (inv_range s H) as Hr.
  pose proof (nextTarget_mod s Hr) as [_ Hn].
  pose proof (prevTarget_mod s Hr) as [_ Hp].
  assert (forall t, 0 <= t < slideCount s ->
            same_show s (moved t (restarted s))
            \/ (exists t', isAnimating s = false /\ t' <> activeIndex s
                  /\ 0 <= t' < slideCount s
                  /\ same_show (started t' s) (moved t (restarted s)))
            \/ (exists t', timeline s = Some t'
                  /\ moved t (restarted s) = settled t' (set_timeline None s)))
    as Hnav.
  { intros t Ht.
    destruct (moved_shape s (restarted s) t (same_show_restarted s))
      as [Hs|(Hi & Hne & Hs)]; [by left|].
    right. left. by exists t. }
  destruct e; unfold step, exec, handler.
  6-11: left; unfold_handlers; unfold same_show; crush_state s.
  - unfold bind, get, when. destruct (btnNext s); [|left; apply same_show_refl].
    rewrite next_eq by done. by apply Hnav.
  - unfold bind, get, when. destruct (btnPrev s); [|left; apply same_show_refl].
    rewrite prev_eq by done. by apply Hnav.
  - unfold onKeyDown, bind, get, when.
    destruct (negb (isInView s)); [left; apply same_show_refl|].
    destruct (isTypingTarget e); [left; apply same_show_refl|].
    destruct (String.eqb (key e) "ArrowRight") eqn:Er;
      destruct (String.eqb (key e) "ArrowLeft") eqn:El.
    + destruct (arrows_differ _ Er El).
    + rewrite next_eq by done. cbn. by apply Hnav.
    + cbn. rewrite prev_eq by done. by apply Hnav.
    + left. apply same_show_refl.
  - unfold elapse, bind, get, modify.
    destruct (autoplayCall s) as [t|] eqn:Hc; [|left; apply same_show_refl].
    destruct (t_paused t); [left; apply same_show_refl|].
    destruct (Z.of_N ms <? t_remaining t); [left; by destruct s|].
    rewrite autoplayCallback_eq by done. cbn [snd].
    destruct (negb (isInView s) || isAnimating s);
      [left; apply same_show_restarted|].
    destruct (moved_shape s s (nextTarget s) (same_show_refl s))
      as [Hs|(Hi & Hne & Hs)].
    + left. apply (same_show_trans _ _ _ Hs), same_show_restarted.
    + right. left. exists (nextTarget s). repeat split; try done; try lia.
      all: apply (same_show_trans _ _ _ Hs), same_show_restarted.
  - destruct (timeline s) as [t|] eqn:Htl.
    + right. right. exists t. split; [done|].
      by rewrite (complete_eq s t H Htl).
    + left. unfold complete, bind, get. rewrite Htl. apply same_show_refl.
Qed.

(** ** Computations that keep a relation *)

Section Keeping.
Variable R : State -> State -> Prop.
Hypothesis R_refl : forall s, R s s.
Hypothesis R_trans : forall s1 s2 s3, R s1 s2 -> R s2 s3 -> R s1 s3.

Lemma keeps_ret {A} (a : A) : keeps R (ret a).
Proof. intros s. apply R_refl. Qed.

Lemma keeps_get : keeps R get.
Proof. intros s. apply R_refl. Qed.

Lemma keeps_throw {A} : keeps R (@throw A).
Proof. intros s. apply R_refl. Qed.

Lemma keeps_defined {A} (x : option A) : keeps R (defined x).
Proof. destruct x; [apply keeps_ret|apply keeps_throw]. Qed.

Lemma keeps_modify f : (forall s, R s (f s)) -> keeps R (modify f).
Proof. intros H s. apply H. Qed.

Lemma keeps_bind {A B} (m : M A) (k : A -> M B) :
  keeps R m -> (forall a, keeps R (k a)) -> keeps R (bind m k).
Proof.
  intros Hm Hk s. unfold bind. specialize (Hm s).
  destruct (m s) as [[a|] s']; [|done].
  apply (R_trans _ s'); [done|apply Hk].
Qed.

Lemma keeps_when b m : keeps R m -> keeps R (when b m).
Proof. destruct b; [done|intros _; apply keeps_ret]. Qed.

Lemma keeps_forEach_from f :
  (forall i, keeps R (f i)) -> forall n i, keeps R (forEach_from i n f).
Proof.
  intros Hf. induction n as [|n IH]; intros i; cbn.
  - apply keeps_ret.
  - apply keeps_bind; [apply Hf|intros _; apply IH].
Qed.

Lemma keeps_forEach_list {A} (l : list A) f :
  (forall a, keeps R (f a)) -> keeps R (forEach_list l f).
Proof.
  intros Hf. induction l as [|a l IH]; cbn.
  - apply keeps_ret.
  - apply keeps_bind; [apply Hf|intros _; apply IH].
Qed.
End Keeping.

(** Goes through a computation built from the monad's operations, one
    [modify] at a time. *)
Ltac keeping rf tr :=
  repeat first
    [ apply (keeps_get _ rf) | apply (keeps_ret _ rf)
    | apply (keeps_throw _ rf) | apply (keeps_defined _ rf)
    | apply (keeps_bind _ tr); [|intros ?]
    | apply (keeps_when _ rf)
    | apply (keeps_forEach_from _ rf tr); intros ?
    | apply (keeps_forEach_list _ rf tr); intros ?
    | match goal with |- keeps _ (modify _) => apply keeps_modify end
    | match goal with
      | |- keeps _ (match ?x with _ => _ end) => destruct x
      end ].

Lemma same_but_slides_refl s : same_but_slides s s.
Proof. by repeat split. Qed.

Lemma same_but_slides_trans s1 s2 s3 :
  same_but_slides s1 s2 -> same_but_slides s2 s3 -> same_but_slides s1 s3.
Proof. unfold same_but_slides. intuition congruence. Qed.

Lemma setSlideState_keeps i b : keeps same_but_slides (setSlideState i b).
Proof.
  unfold setSlideState.
  keeping same_but_slides_refl same_but_slides_trans;
    intros []; repeat split; cbn; apply length_alter.
Qed.

Lemma createSplits_keeps : keeps same_but_slides createSplits.
Proof.
  unfold createSplits.
  keeping same_but_slides_refl same_but_slides_trans;
    intros []; repeat split; cbn; apply length_alter.
Qed.

Lemma aria_kept_refl s : Forall ariaOK (slides s) -> Forall ariaOK (slides s).
Proof. done. Qed.

Lemma aria_kept_trans s1 s2 s3 :
  (Forall ariaOK (slides s1) -> Forall ariaOK (slides s2)) ->
  (Forall ariaOK (slides s2) -> Forall ariaOK (slides s3)) ->
  Forall ariaOK (slides s1) -> Forall ariaOK (slides s3).
Proof. auto. Qed.

Lemma createSplits_aria :
  keeps (fun s s' => Forall ariaOK (slides s) -> Forall ariaOK (slides s'))
        createSplits.
Proof.
  unfold createSplits.
  keeping aria_kept_refl aria_kept_trans; intros []; cbn; try done.
  intros H. apply Forall_alter; [done|]. by intros sl _ Hsl.
Qed.

(** The first loop of the set-up writes "aria-hidden" on every item. *)
Lemma setup_aria s0 a s1 :
  forEach_from 0 (length (slides s0))
    (fun i => setSlideState (Z.of_nat i) (Z.of_nat i =? a)) s0
  = (Returned tt, s1) ->
  Forall ariaOK (slides s1).
Proof.
  intros E.
  pose (P := fun (j : nat) (s' : State) =>
    length (slides s') = length (slides s0)
    /\ forall k sl, (k < j)%nat -> slides s' !! k = Some sl -> ariaOK sl).
  destruct (forEach_from_inv P
              (fun i => setSlideState (Z.of_nat i) (Z.of_nat i =? a))
              (length (slides s0)) 0%nat s0) as [_ [Hlen HP]].
  - split; [done|]. intros k sl Hk. lia.
  - intros j s' Hj [Hlen HP].
    destruct (index_Some (slides s') (Z.of_nat j)) as [sl Hsl]; [lia|].
    rewrite (setSlideState_defined _ _ _ _ Hsl), Nat2Z.id. cbn [fst snd].
    split; [done|]. unfold P.
    destruct s' as [l bp bn ec et a' an rm ae ad ac iv tl tr fr].
    unfold emits, set_slides in *; cbn [slides] in *.
    split; [by rewrite length_alter|].
    intros k sl' Hk. destruct (decide (k = j)) as [->|Hne].
    + rewrite list_lookup_alter_eq. intros Hl.
      by apply fmap_Some in Hl as (x & _ & ->).
    + rewrite list_lookup_alter_ne by done. apply HP. lia.
  - rewrite E in Hlen, HP. cbn in *. apply Forall_lookup.
    intros k sl Hk. apply (HP k sl); [|done].
    apply lookup_lt_Some in Hk. lia.
Qed.

(** The set-up, phase by phase. *)
Lemma setup_eq reduce s0 :
  exists s1 s4,
    forEach_from 0 (length (slides s0))
      (fun i => setSlideState (Z.of_nat i) (Z.of_nat i =? activeIndex s0)) s0
    = (Returned tt, s1)
    /\ createSplits (counted reduce s1) = (Returned tt, s4)
    /\ setup reduce s0 = (Returned tt, restarted s4).
Proof.
  destruct (setup_marks s0) as (s1 & E1 & _).
  destruct (setup_splits (counted reduce s1)) as (s4 & E4 & _).
  exists s1, s4. split; [done|]. split; [done|].
  unfold setup, bind at 1, get. cbn beta iota.
  unfold bind at 1. rewrite E1.
  assert ((updateCounter >> when reduce (onMedia true)) s1
          = (Returned tt, counted reduce s1)) as E3.
  { unfold updateCounter, onMedia, when, bind, get, modify, counted.
    destruct s1 as [sl bp bn [] et a an rm ae ad ac iv tl tr fr], reduce; done. }
  unfold bind at 1 2. unfold bind in E3.
  destruct (updateCounter s1) as [[[]|] s2]; [|done].
  rewrite E3. unfold bind. by rewrite E4, startAutoplay_eq.
Qed.

Lemma findIndex_from_spec items : forall i,
  (findIndex_from i items = -1
   /\ forall j it, items !! j = Some it -> m_active it = false)
  \/ (exists k it,
        findIndex_from i items = i + Z.of_nat k
        /\ items !! k = Some it /\ m_active it = true
        /\ forall j it', (j < k)%nat -> items !! j = Some it' ->
                         m_active it' = false).
Proof.
  induction items as [|x items IH]; intros i; cbn.
  - left. split; [done|]. intros j it Hj. done.
  - destruct (m_active x) eqn:Hx.
    + right. exists 0%nat, x.
      split; [lia|]. split; [done|]. split; [done|].
      intros j it' Hj. lia.
    + destruct (IH (i + 1)) as [[E Hall]|(k & it & E & Hk & Hit & Hbefore)].
      * left. split; [done|]. intros [|j] it Hj; cbn in Hj;
          [by injection Hj as <-|by apply (Hall j)].
      * right. exists (S k), it.
        split; [lia|]. split; [done|]. split; [done|].
        intros [|j] it' Hlt Hj; cbn in Hj;
          [by injection Hj as <-|apply (Hbefore j); [lia|done]].
Qed.

(** The fields of a carousel right after its set-up. *)
Lemma init_fields w reduce s :
  init w reduce = Some s ->
  exists items,
    w_list w = Some items
    /\ length (slides s) = length items
    /\ activeIndex s = (if findIndex items <? 0 then 0 else findIndex items)
    /\ btnPrev s = w_prev w /\ btnNext s = w_next w
    /\ elCurrent s = match w_current w with
                     | Some _ => Some (Js.String_ (activeIndex s + 1))
                     | None => None
                     end
    /\ elTotal s = match w_total w with
                   | Some _ => Some (Js.String_ (Z.of_nat (length items)))
                   | None => None
                   end
    /\ Forall ariaOK (slides s).
Proof.
  unfold init. destruct (w_list w) as [items|] eqn:Hl; [|done].
  destruct items as [|it0 items']; [done|].
  set (items := it0 :: items') in *. intros [= Hs]. exists items.
  split; [done|].
  set (s0 := initial w items) in *.
  destruct (setup_eq reduce s0) as (s1 & s4 & E1 & E4 & E).
  unfold exec in Hs. rewrite E in Hs. cbn [snd] in Hs.
  pose proof (keeps_forEach_from same_but_slides same_but_slides_refl
                same_but_slides_trans _
                (fun i => setSlideState_keeps (Z.of_nat i)
                            (Z.of_nat i =? activeIndex s0))
                (length (slides s0)) 0%nat s0) as K1.
  rewrite E1 in K1. cbn [snd] in K1.
  pose proof (createSplits_keeps (counted reduce s1)) as K4.
  rewrite E4 in K4. cbn [snd] in K4.
  pose proof (createSplits_aria (counted reduce s1)) as A4.
  rewrite E4 in A4. cbn [snd] in A4.
  pose proof (setup_aria s0 _ s1 E1) as A1.
  assert (Forall ariaOK (slides s4)) as HA
    by (apply A4; by destruct s1).
  destruct K1 as (P1 & N1 & C1 & T1 & I1 & _ & _ & _ & _ & _ & _ & _ & _ & L1).
  destruct K4 as (P4 & N4 & C4 & T4 & I4 & _ & _ & _ & _ & _ & _ & _ & _ & L4).
  assert (slides (restarted s4) = slides s4 /\ btnPrev (restarted s4) = btnPrev s4
          /\ btnNext (restarted s4) = btnNext s4
          /\ elCurrent (restarted s4) = elCurrent s4
          /\ elTotal (restarted s4) = elTotal s4
          /\ activeIndex (restarted s4) = activeIndex s4)
    as (R1 & R2 & R3 & R4 & R5 & R6).
  { unfold restarted. destruct (autoplayEnabled s4); [|done]. by destruct s4. }
  subst s. rewrite R1, R2, R3, R4, R5, R6, P4, N4, C4, T4, I4, L4.
  replace (length (slides (counted reduce s1))) with (length (slides s1))
    by (by destruct s1).
  replace (btnPrev (counted reduce s1)) with (btnPrev s1) by (by destruct s1).
  replace (btnNext (counted reduce s1)) with (btnNext s1) by (by destruct s1).
  replace (elTotal (counted reduce s1)) with (elTotal s1) by (by destruct s1).
  replace (activeIndex (counted reduce s1)) with (activeIndex s1)
    by (by destruct s1).
  replace (elCurrent (counted reduce s1))
    with (match elCurrent s1 with
          | Some _ => Some (Js.String_ (activeIndex s1 + 1))
          | None => None
          end) by (by destruct s1).
  rewrite L1, P1, N1, C1, T1, I1.
  subst s0. unfold initial. cbn [slides btnPrev btnNext elCurrent elTotal
                                   activeIndex].
  rewrite length_fmap. by repeat split.
Qed.

(** ** What is shown agrees with the variables *)

Lemma Shown_same s s' : Shown s -> same_show s s' -> Shown s'.
Proof.
  intros [Ha [Hc Ht]] (Hs & Hi & _ & _ & Hec & Het & _).
  unfold Shown, counterOK, slideCount. by rewrite Hs, Hi, Hec, Het.
Qed.

Lemma Shown_started s t : Shown s -> Shown (started t s).
Proof. intros H. by destruct s. Qed.

Lemma Shown_settled s t : Shown s -> Shown (settled t (set_timeline None s)).
Proof.
  intros [Ha [Hc Ht]]. unfold Shown, counterOK, slideCount, settled.
  destruct s as [sl bp bn ec et a an rm ae ad ac iv tl tr fr]; cbn in *.
  split; [|split].
  - apply Forall_alter; [|done].
    apply Forall_alter; [done|]. done.
  - intros txt. destruct ec; [|done]. by intros [= <-].
  - rewrite !length_alter. done.
Qed.

Lemma Shown_step s e : Inv s -> Shown s -> Shown (step s e).
Proof.
  intros HI H.
  destruct (step_shape s e HI) as [Hs|[(t & _ & _ & _ & Hs)|(t & _ & ->)]].
  - by apply (Shown_same s).
  - apply (Shown_same (started t s)); [|done]. by apply Shown_started.
  - by apply Shown_settled.
Qed.

Lemma Shown_init w reduce s : init w reduce = Some s -> Shown s.
Proof.
  intros H. destruct (init_fields _ _ _ H)
    as (items & _ & Hlen & _ & _ & _ & Hec & Het & Ha).
  split; [done|]. unfold counterOK, slideCount. rewrite Hec, Het, Hlen.
  split; intros txt.
  - destruct (w_current w); [|done]. by intros [= <-].
  - destruct (w_total w); [|done]. by intros [= <-].
Qed.

Lemma reachable_Shown s : reachable s -> Shown s.
Proof.
  induction 1 as [w reduce s H|s e Hr IH].
  - by apply (Shown_init w reduce).
  - apply Shown_step; [by apply reachable_Inv|done].
Qed.

(** X1. In every state a carousel can reach, the "aria-hidden" attribute
    of every item is "false" on the active slide and "true" on all the
    others: what assistive technology is told agrees with [activeIndex],
    also while a transition is in flight. *)
Theorem aria_hidden_follows_activeIndex (s : State) :
  reachable s ->
  forall i sl, slides s !! i = Some sl ->
    aria_hidden sl
    = Some (if Z.of_nat i =? activeIndex s
            then "false"%string else "true"%string).
Proof.
  intros Hreach i sl Hi.
  destruct (reachable_Shown s Hreach) as [Ha _].
  pose proof (inv_marks s (reachable_Inv s Hreach) i sl Hi) as Hm.
  rewrite Forall_lookup in Ha. rewrite (Ha i sl Hi), Hm.
  by destruct (Z.of_nat i =? activeIndex s).
Qed.

Lemma aria_hidden_follows_activeIndex_witness :
  let s := run (carousel (sample_wrap 3) false)
               [click_next; timeline_completes] in
  (activeIndex s = 1
   /\ aria_hidden <$> slides s
      = [Some "true"; Some "false"; Some "true"]%string)
  /\ forall i sl, slides s !! i = Some sl ->
        aria_hidden sl
        = Some (if Z.of_nat i =? activeIndex s
                then "false"%string else "true"%string).
Proof.
  cbv zeta. split; [split; vm_compute; reflexivity|].
  refine (aria_hidden_follows_activeIndex
            (run (carousel (sample_wrap 3) false)
                 [click_next; timeline_completes]) _).
  apply reachable_run. apply (reachable_init (sample_wrap 3) false).
  vm_compute. reflexivity.
Defined.

(** X2. In every state a carousel can reach, the current-slide counter,
    when the wrap has one, shows [activeIndex + 1], and the total counter,
    when the wrap has one, shows the number of slides. *)
Theorem counters_show_position (s : State) :
  reachable s ->
  (forall txt, elCurrent s = Some txt -> txt = Js.String_ (activeIndex s + 1))
  /\ (forall txt, elTotal s = Some txt -> txt = Js.String_ (slideCount s)).
Proof. intros Hreach. by destruct (reachable_Shown s Hreach) as [_ Hc]. Qed.

Lemma counters_show_position_witness :
  let s := run (carousel (sample_wrap 12) false) (rounds click_prev 3) in
  (elCurrent s = Some "10"%string /\ elTotal s = Some "12"%string)
  /\ (forall txt, elCurrent s = Some txt ->
                  txt = Js.String_ (activeIndex s + 1)).
Proof.
  cbv zeta. split; [split; vm_compute; reflexivity|].
  refine (proj1 (counters_show_position
                   (run (carousel (sample_wrap 12) false)
                        (rounds click_prev 3)) _)).
  apply reachable_run. apply (reachable_init (sample_wrap 12) false).
  vm_compute. reflexivity.
Defined.

(** ** Transitions carried through *)

Lemma same_show_moved s s' t :
  same_show s s' -> same_show (moved t s) (moved t s').
Proof.
  intros H. pose proof H as (_ & Ha & Hb & _). unfold moved.
  rewrite Ha, Hb.
  destruct (isAnimating s || (t =? activeIndex s)); [done|].
  by apply same_show_started.
Qed.

Lemma Inv_idle_timeline s : Inv s -> isAnimating s = false -> timeline s = None.
Proof.
  intros HI Hb. destruct (timeline s) as [t|] eqn:Ht; [|done].
  destruct (inv_timeline s HI t Ht) as [Hb' _]. congruence.
Qed.

(** A carousel at rest is asked for slide [t], then the timeline
    completes: slide [t] is active and the carousel is at rest again. *)
Lemma settle_after s s1 t :
  Inv s -> isAnimating s = false -> 0 <= t < slideCount s ->
  Inv s1 -> same_show (moved t s) s1 ->
  let s2 := step s1 timeline_completes in
  Inv s2 /\ isAnimating s2 = false /\ activeIndex s2 = t
  /\ slideCount s2 = slideCount s
  /\ btnPrev s2 = btnPrev s /\ btnNext s2 = btnNext s
  /\ autoplayCall s2 = autoplayCall s1.
Proof.
  intros HI Hidle Ht HI1 Hs s2.
  pose proof (Inv_step s1 timeline_completes HI1) as [HI2 _]. fold s2 in HI2.
  split; [done|].
  unfold moved in Hs. rewrite Hidle in Hs. cbn [orb] in Hs.
  destruct (Z.eqb_spec t (activeIndex s)) as [->|Hne].
  - destruct Hs as (Hsl & Ha & Hb & Htl & _ & _ & Hp & Hn & _).
    assert (s2 = s1) as ->.
    { subst s2. unfold step, exec, handler, complete, bind, get.
      by rewrite Htl, (Inv_idle_timeline s HI Hidle). }
    unfold slideCount. by rewrite Hsl, Ha, Hb, Hp, Hn, Hidle.
  - destruct Hs as (Hsl & Ha & Hb & Htl & _ & _ & Hp & Hn & _).
    assert (timeline s1 = Some t) as Htl1 by (rewrite Htl; by destruct s).
    assert (s2 = settled t (set_timeline None s1)) as ->.
    { subst s2. unfold step, exec, handler.
      by rewrite (complete_eq s1 t HI1 Htl1). }
    unfold slideCount, settled. cbn. rewrite !length_alter.
    replace (slides (set_timeline None s1)) with (slides s1)
      by (by destruct s1).
    replace (btnPrev (set_timeline None s1)) with (btnPrev s1)
      by (by destruct s1).
    replace (btnNext (set_timeline None s1)) with (btnNext s1)
      by (by destruct s1).
    replace (autoplayCall (set_timeline None s1)) with (autoplayCall s1)
      by (by destruct s1).
    rewrite Hsl, Hp, Hn. by destruct s.
Qed.

Lemma click_next_eq s :
  Inv s -> btnNext s = true ->
  step s click_next = moved (nextTarget s) (restarted s).
Proof.
  intros HI Hb. unfold step, exec, handler, bind, get, when. rewrite Hb.
  by rewrite (next_eq s (inv_range s HI)).
Qed.

Lemma click_prev_eq s :
  Inv s -> btnPrev s = true ->
  step s click_prev = moved (prevTarget s) (restarted s).
Proof.
  intros HI Hb. unfold step, exec, handler, bind, get, when. rewrite Hb.
  by rewrite (prev_eq s (inv_range s HI)).
Qed.

Lemma round_next s :
  Inv s -> isAnimating s = false -> btnNext s = true ->
  let s2 := run s (rounds click_next 1) in
  Inv s2 /\ isAnimating s2 = false
  /\ activeIndex s2 = (activeIndex s + 1) mod slideCount s
  /\ slideCount s2 = slideCount s
  /\ btnPrev s2 = btnPrev s /\ btnNext s2 = btnNext s.
Proof.
  intros HI Hidle Hb. cbn [rounds replicate concat app run fold_left].
  pose proof (inv_range s HI) as Hr.
  destruct (nextTarget_mod s Hr) as [Hn Hnr].
  destruct (settle_after s (step s click_next) (nextTarget s) HI Hidle Hnr)
    as (H1 & H2 & H3 & H4 & H5 & H6 & _).
  - by apply Inv_step.
  - rewrite (click_next_eq s HI Hb).
    apply same_show_moved, same_show_restarted.
  - rewrite <- Hn. done.
Qed.

Lemma round_prev s :
  Inv s -> isAnimating s = false -> btnPrev s = true ->
  let s2 := run s (rounds click_prev 1) in
  Inv s2 /\ isAnimating s2 = false
  /\ activeIndex s2 = (activeIndex s - 1 + slideCount s) mod slideCount s
  /\ slideCount s2 = slideCount s
  /\ btnPrev s2 = btnPrev s /\ btnNext s2 = btnNext s.
Proof.
  intros HI Hidle Hb. cbn [rounds replicate concat app run fold_left].
  pose proof (inv_range s HI) as Hr.
  destruct (prevTarget_mod s Hr) as [Hn Hnr].
  destruct (settle_after s (step s click_prev) (prevTarget s) HI Hidle Hnr)
    as (H1 & H2 & H3 & H4 & H5 & H6 & _).
  - by apply Inv_step.
  - rewrite (click_prev_eq s HI Hb).
    apply same_show_moved, same_show_restarted.
  - rewrite <- Hn. done.
Qed.

Lemma rounds_S e k s :
  run s (rounds e (S k)) = run (run s (rounds e 1)) (rounds e k).
Proof. reflexivity. Qed.

Lemma rounds_next s : forall k,
  Inv s -> isAnimating s = false -> btnNext s = true ->
  let s' := run s (rounds click_next k) in
  Inv s' /\ isAnimating s' = false
  /\ activeIndex s' = (activeIndex s + Z.of_nat k) mod slideCount s.
Proof.
  intros k. revert s. induction k as [|k IH]; intros s HI Hidle Hb.
  - cbn. split; [done|]. split; [done|].
    pose proof (inv_range s HI). rewrite Z.add_0_r, Z.mod_small; done.
  - rewrite rounds_S.
    destruct (round_next s HI Hidle Hb) as (H1 & H2 & H3 & H4 & _ & H6).
    destruct (IH _ H1 H2 ltac:(by rewrite H6)) as (I1 & I2 & I3).
    split; [done|]. split; [done|].
    cbv zeta in I3. rewrite I3, H3, H4.
    pose proof (inv_range s HI).
    rewrite Z.add_mod_idemp_l by lia. f_equal. lia.
Qed.

(** X3. On a carousel at rest with a "next" button, clicking "next" and
    letting the transition complete, [k] times over, leaves slide
    (activeIndex + k) mod N active, N being the number of slides; so N
    such rounds bring the carousel back to the slide it started from. *)
Theorem next_rounds_cycle (s : State) (k : nat) :
  reachable s ->
  isAnimating s = false ->
  btnNext s = true ->
  let N := slideCount s in
  let s' := run s (rounds click_next k) in
  isAnimating s' = false
  /\ activeIndex s' = (activeIndex s + Z.of_nat k) mod N
  /\ (Z.of_nat k = N -> activeIndex s' = activeIndex s).
Proof.
  intros Hreach Hidle Hb N s'.
  pose proof (reachable_Inv s Hreach) as HI.
  destruct (rounds_next s k HI Hidle Hb) as (_ & H2 & H3).
  split; [done|]. split; [done|].
  intros Hk. subst s'. rewrite H3, Hk.
  pose proof (inv_range s HI). subst N.
  rewrite <- (Z.mul_1_l (slideCount s)) at 1.
  rewrite Z.mod_add by lia. by apply Z.mod_small.
Qed.

Lemma next_rounds_cycle_witness :
  let s := run (carousel (sample_wrap 5) false)
               [click_prev; timeline_completes] in
  (activeIndex s = 4 /\ slideCount s = 5)
  /\ activeIndex (run s (rounds click_next 5)) = activeIndex s.
Proof.
  cbv zeta. split; [split; vm_compute; reflexivity|].
  refine (proj2 (proj2 (next_rounds_cycle
            (run (carousel (sample_wrap 5) false)
                 [click_prev; timeline_completes]) 5 _ _ _)) _).
  - apply reachable_run. apply (reachable_init (sample_wrap 5) false).
    vm_compute. reflexivity.
  - vm_compute. reflexivity.
  - vm_compute. reflexivity.
  - vm_compute. reflexivity.
Defined.

(** X4. On a carousel at rest with both buttons, a completed "next"
    followed by a completed "prev" ends on the slide it started from, and
    so does a completed "prev" followed by a completed "next", the first
    and the last slide included. *)
Theorem next_and_prev_undo_each_other (s : State) :
  reachable s ->
  isAnimating s = false ->
  btnNext s = true -> btnPrev s = true ->
  activeIndex (run s (rounds click_next 1 ++ rounds click_prev 1))
  = activeIndex s
  /\ activeIndex (run s (rounds click_prev 1 ++ rounds click_next 1))
     = activeIndex s.
Proof.
  intros Hreach Hidle Hn Hp.
  pose proof (reachable_Inv s Hreach) as HI.
  pose proof (inv_range s HI) as Hr.
  unfold run. rewrite !fold_left_app. fold (run s (rounds click_next 1)).
  fold (run s (rounds click_prev 1)).
  destruct (round_next s HI Hidle Hn) as (N1 & N2 & N3 & N4 & N5 & N6).
  destruct (round_prev s HI Hidle Hp) as (P1 & P2 & P3 & P4 & P5 & P6).
  destruct (round_prev _ N1 N2 ltac:(by rewrite N5)) as (_ & _ & A & _).
  destruct (round_next _ P1 P2 ltac:(by rewrite P6)) as (_ & _ & B & _).
  unfold run in *. cbv zeta in A, B. rewrite A, B, N3, N4, P3, P4.
  split.
  - replace ((activeIndex s + 1) mod slideCount s - 1 + slideCount s)
      with ((activeIndex s + 1) mod slideCount s + (slideCount s - 1)) by lia.
    rewrite Z.add_mod_idemp_l by lia.
    replace (activeIndex s + 1 + (slideCount s - 1))
      with (activeIndex s + 1 * slideCount s) by lia.
    rewrite Z.mod_add by lia. by apply Z.mod_small.
  - rewrite Z.add_mod_idemp_l by lia.
    replace (activeIndex s - 1 + slideCount s + 1)
      with (activeIndex s + 1 * slideCount s) by lia.
    rewrite Z.mod_add by lia. by apply Z.mod_small.
Qed.

Lemma next_and_prev_undo_each_other_witness :
  let s := carousel (sample_wrap 4) false in
  activeIndex s = 0
  /\ activeIndex (run s (rounds click_prev 1 ++ rounds click_next 1))
     = activeIndex s.
Proof.
  cbv zeta. split; [vm_compute; reflexivity|].
  refine (proj2 (next_and_prev_undo_each_other
                   (carousel (sample_wrap 4) false) _ _ _ _)).
  - apply (reachable_init (sample_wrap 4) false). vm_compute. reflexivity.
  - vm_compute. reflexivity.
  - vm_compute. reflexivity.
  - vm_compute. reflexivity.
Defined.

(** X5. When the delayed call fires on a carousel of more than one slide
    that is in view and at rest, it begins a transition; whatever happens
    before that transition completes (time passing, the delayed call
    firing again, clicks, keys, scrolling), the slide that was active stays
    the active one until then, and at the completion the next slide (the
    first one after the last) is active and the carousel is at rest. *)
Theorem autoplay_round_advances (s : State) (tm : Timer) (ms : N)
    (es : list Event) :
  reachable s ->
  autoplayCall s = Some tm -> t_paused tm = false ->
  t_remaining tm <= Z.of_N ms ->
  isInView s = true -> isAnimating s = false ->
  1 < slideCount s ->
  forallb (fun e => negb (isCompletion e)) es = true ->
  let s1 := run (step s (time_passes ms)) es in
  let s2 := step s1 timeline_completes in
  isAnimating s1 = true
  /\ activeIndex s1 = activeIndex s
  /\ activeIndex s2 = (activeIndex s + 1) mod slideCount s
  /\ activeIndex s2 <> activeIndex s
  /\ isAnimating s2 = false.
Proof.
  intros Hreach Hc Hp Hrem Hv Hidle Hmany Hes s1 s2.
  pose proof (reachable_Inv s Hreach) as HI.
  pose proof (inv_range s HI) as Hr.
  destruct (nextTarget_mod s Hr) as [Hn Hnr].
  assert (nextTarget s <> activeIndex s) as Hne.
  { rewrite Hn. destruct (Z.eq_dec (activeIndex s + 1) (slideCount s)) as [E|E].
    - rewrite E, Z.mod_same by lia. lia.
    - rewrite Z.mod_small by lia. lia. }
  assert (step s (time_passes ms) = restarted (moved (nextTarget s) s)) as E.
  { unfold step, exec, handler, elapse, bind, get. rewrite Hc, Hp.
    destruct (Z.ltb_spec (Z.of_N ms) (t_remaining tm)); [lia|].
    rewrite (autoplayCallback_eq s Hr), Hv, Hidle. done. }
  pose proof (same_show_restarted (moved (nextTarget s) s)) as Hs0.
  rewrite <- E in Hs0.
  assert (isAnimating (moved (nextTarget s) s) = true
          /\ activeIndex (moved (nextTarget s) s) = activeIndex s)
    as [Hb0 Ha0].
  { unfold moved. rewrite Hidle. apply Z.eqb_neq in Hne. rewrite Hne.
    by destruct s. }
  assert (isAnimating (step s (time_passes ms)) = true) as Hb1
    by (destruct Hs0 as (_ & _ & -> & _); done).
  pose proof (run_busy _ es Hb1 Hes) as Hs1. fold s1 in Hs1.
  pose proof (same_show_trans _ _ _ Hs0 Hs1) as Hs.
  destruct (settle_after s s1 (nextTarget s) HI Hidle Hnr)
    as (_ & H2 & H3 & _); [|done|].
  { apply run_Inv. by apply Inv_step. }
  fold s2 in H2, H3.
  destruct Hs as (_ & Ha & Hb & _).
  split; [by rewrite Hb|]. split; [by rewrite Ha|].
  split; [by rewrite H3|]. split; [by rewrite H3|done].
Qed.

Lemma autoplay_round_advances_witness :
  let s := run (carousel (sample_wrap 3) false) (rounds click_next 2) in
  let es := [time_passes 1400; click_prev; time_passes 4000] in
  (activeIndex s = 2 /\ autoplayCall s = Some (mkTimer 2 4000 false))
  /\ activeIndex (step (run (step s (time_passes 4000)) es)
                       timeline_completes)
     = (activeIndex s + 1) mod slideCount s.
Proof.
  cbv zeta. split; [split; vm_compute; reflexivity|].
  refine (proj1 (proj2 (proj2 (autoplay_round_advances
                   (run (carousel (sample_wrap 3) false) (rounds click_next 2))
                   (mkTimer 2 4000 false) 4000
                   [time_passes 1400; click_prev; time_passes 4000]
                   _ _ _ _ _ _ _ _)))).
  - apply reachable_run. apply (reachable_init (sample_wrap 3) false).
    vm_compute. reflexivity.
  - vm_compute. reflexivity.
  - reflexivity.
  - vm_compute. congruence.
  - vm_compute. reflexivity.
  - vm_compute. reflexivity.
  - vm_compute. reflexivity.
  - reflexivity.
Defined.

Lemma step_enabled s e :
  Inv s -> autoplayEnabled (step s e) = autoplayEnabled s.
Proof.
  intros HI.
  destruct (step_shape s e HI) as [Hs|[(t & _ & _ & _ & Hs)|(t & _ & ->)]].
  - by destruct Hs as (_ & _ & _ & _ & _ & _ & _ & _ & -> & _).
  - destruct Hs as (_ & _ & _ & _ & _ & _ & _ & _ & -> & _). by destruct s.
  - by destruct s.
Qed.

Lemma run_enabled s es :
  Inv s -> autoplayEnabled (run s es) = autoplayEnabled s.
Proof.
  revert s. induction es as [|e es IH]; intros s HI; [done|].
  change (run s (e :: es)) with (run (step s e) es).
  rewrite IH by (by apply Inv_step). by apply step_enabled.
Qed.

(** X6. A carousel has a delayed call pending, at every moment of its
    life, exactly when its "data-autoplay" attribute is the string "true":
    with that value there is always one, running or paused, and with any
    other value, or none, there never is. *)
Theorem autoplay_follows_attribute (w : Wrap) (reduce : bool) (s0 : State)
    (es : list Event) :
  init w reduce = Some s0 ->
  autoplayCall (run s0 es) <> None <-> w_autoplay w = Some (Js.lit "true").
Proof.
  intros Hinit.
  pose proof (Inv_init _ _ _ Hinit) as HI0.
  pose proof (run_Inv s0 es HI0) as HI.
  pose proof (run_enabled s0 es HI0) as Hen.
  destruct (init_spec _ _ _ Hinit)
    as (items & _ & _ & _ & _ & _ & _ & _ & _ & He0 & _).
  pose proof (inv_timer _ HI) as Hk. unfold timer_ok in Hk.
  rewrite Hk, Hen, He0. unfold read_autoplayEnabled.
  destruct (w_autoplay w) as [a|]; [|done].
  rewrite bool_decide_eq_true. split; [by intros ->|by intros [= ->]].
Qed.

Lemma autoplay_follows_attribute_witness :
  let w := mkWrap (Some [sample_item 0; sample_item 1]) true true None None
                  (Some (Js.lit "yes")) None in
  autoplayCall (run (carousel w false) [click_next; scroll_leave;
                                        scroll_enter; time_passes 9000])
  = None.
Proof.
  cbv zeta.
  pose proof (autoplay_follows_attribute
                (mkWrap (Some [sample_item 0; sample_item 1]) true true None
                        None (Some (Js.lit "yes")) None)
                false
                (carousel (mkWrap (Some [sample_item 0; sample_item 1]) true
                                  true None None (Some (Js.lit "yes")) None)
                          false)
                [click_next; scroll_leave; scroll_enter; time_passes 9000]
                ltac:(vm_compute; reflexivity)) as Hiff.
  destruct (autoplayCall _) eqn:E; [|reflexivity].
  assert (Some (Js.lit "yes") = Some (Js.lit "true")) as Habs
    by (apply Hiff; congruence).
  vm_compute in Habs. discriminate.
Defined.

Lemma clock_nonneg es : 0 <= clock es.
Proof. induction es as [|[] es IH]; cbn; lia. Qed.

(** A running delayed call only counts down while less time passes than
    it has left, whether or not a transition completes meanwhile. *)
Lemma countdown es : forall s id r,
  Inv s -> autoplayCall s = Some (mkTimer id r false) ->
  forallb isQuiet es = true -> clock es < r ->
  autoplayCall (run s es) = Some (mkTimer id (r - clock es) false).
Proof.
  induction es as [|e es IH]; intros s id r HI Hc Hq Hlt.
  - cbn. rewrite Hc. do 2 f_equal. lia.
  - cbn [forallb] in Hq. apply andb_true_iff in Hq as [He Hq].
    pose proof (clock_nonneg es) as H0.
    change (run s (e :: es)) with (run (step s e) es).
    pose proof (Inv_step s e HI) as [HI' _].
    destruct e; try done.
    + cbn [clock] in Hlt |- *.
      rewrite (IH _ id (r - Z.of_N ms)); [do 2 f_equal; lia|done| |done|lia].
      unfold step, exec, handler, elapse, bind, get, modify. rewrite Hc. cbn.
      destruct (Z.ltb_spec (Z.of_N ms) r); [|lia]. by destruct s.
    + cbn [clock] in Hlt |- *.
      apply IH; [done| |done|done].
      unfold step, exec, handler.
      destruct (timeline s) as [t|] eqn:Htl.
      * rewrite (complete_eq s t HI Htl). cbn. by destruct s.
      * unfold complete, bind, get. by rewrite Htl.
Qed.

(** X7. With autoplay enabled, a click on "next" or "prev" makes a new
    delayed call for the whole duration, however little time the old one
    had left; and as long as less time than the duration has passed since
    the click, whether or not the transition has completed meanwhile, that
    delayed call is the pending one and has only counted down. *)
Theorem navigation_restarts_countdown (s : State) (e : Event)
    (es : list Event) :
  reachable s ->
  autoplayEnabled s = true ->
  (e = click_next /\ btnNext s = true) \/ (e = click_prev /\ btnPrev s = true) ->
  forallb isQuiet es = true ->
  clock es < autoplayDuration s ->
  let s1 := step s e in
  let s2 := run s1 es in
  autoplayCall s1 = Some (mkTimer (serial s) (autoplayDuration s) false)
  /\ autoplayCall s2
     = Some (mkTimer (serial s) (autoplayDuration s - clock es) false).
Proof.
  intros Hreach Hen He Hq Hms s1 s2.
  pose proof (reachable_Inv s Hreach) as HI.
  assert (exists t, s1 = moved t (restarted s)) as [t E].
  { subst s1. destruct He as [[-> Hb]|[-> Hb]].
    - exists (nextTarget s). by apply click_next_eq.
    - exists (prevTarget s). by apply click_prev_eq. }
  assert (autoplayCall s1
          = Some (mkTimer (serial s) (autoplayDuration s) false)) as Hc.
  { rewrite E. destruct (moved_timer (restarted s) t) as (-> & _).
    by rewrite restarted_timer, Hen. }
  split; [done|].
  apply countdown; [by apply Inv_step|done|done|done].
Qed.

Lemma navigation_restarts_countdown_witness :
  let s := step (carousel (sample_wrap 3) false) (time_passes 3999) in
  let es := [time_passes 1400; timeline_completes; time_passes 2599] in
  autoplayCall s = Some (mkTimer 0 1 false)
  /\ autoplayCall (run (step s click_next) es)
     = Some (mkTimer (serial s) (autoplayDuration s - clock es) false).
Proof.
  cbv zeta. split; [vm_compute; reflexivity|].
  refine (proj2 (navigation_restarts_countdown
            (step (carousel (sample_wrap 3) false) (time_passes 3999))
            click_next [time_passes 1400; timeline_completes; time_passes 2599]
            _ _ _ _ _)).
  - apply reachable_step. apply (reachable_init (sample_wrap 3) false).
    vm_compute. reflexivity.
  - vm_compute. reflexivity.
  - left. split; [reflexivity|vm_compute; reflexivity].
  - reflexivity.
  - vm_compute. reflexivity.
Defined.

(** X8. While a transition is in flight, no event other than its
    completion makes a timeline or puts anything on one, and none
    replaces the timeline in flight: clicks, keys and the autoplay timer
    cannot start a second transition. *)
Theorem busy_carousel_requests_no_transition (s : State) (e : Event) :
  isAnimating s = true -> isCompletion e = false ->
  transitions (step s e) = transitions s
  /\ timeline (step s e) = timeline s
  /\ isAnimating (step s e) = true.
Proof.
  intros Hb He. unfold transitions.
  destruct e; try done; unfold_handlers; crush_state s.
Qed.

Lemma busy_carousel_requests_no_transition_witness :
  let s := step (carousel (sample_wrap 3) false) click_next in
  isAnimating s = true
  /\ transitions (step s click_prev) = transitions s.
Proof.
  cbv zeta. split; [vm_compute; reflexivity|].
  refine (proj1 (busy_carousel_requests_no_transition
                   (step (carousel (sample_wrap 3) false) click_next)
                   click_prev _ _)).
  - vm_compute. reflexivity.
  - reflexivity.
Defined.

Lemma onComplete_undefined_slides s t o :
  Js.index (slides s) (activeIndex s) = Some o ->
  Js.index (slides s) t = None ->
  slides (exec (onComplete t) s)
  = alter (mark false) (Z.to_nat (activeIndex s)) (slides s).
Proof.
  intros Ho Hi. unfold exec, onComplete, bind, get.
  rewrite (setSlideState_defined _ _ _ _ Ho).
  rewrite setSlideState_undefined; [by destruct s|].
  cbn. rewrite index_alter, Hi. by case_bool_decide.
Qed.

(** X10. If [goTo] has been given an index that is no slide position and
    the timeline it made then completes, the completion callback takes the
    class off the active slide and throws before it marks any other: no
    slide is active any more, and the carousel stays busy on the same
    [activeIndex] with no timeline left to complete. *)
Theorem out_of_range_completion_deactivates (s : State) (nextIndex : Z) :
  reachable s ->
  isAnimating s = false ->
  nextIndex < 0 \/ slideCount s <= nextIndex ->
  let s1 := exec (goTo nextIndex) s in
  let s2 := step s1 timeline_completes in
  threw complete s1 = true
  /\ count_active s2 = 0%nat
  /\ isAnimating s2 = true
  /\ activeIndex s2 = activeIndex s
  /\ timeline s2 = None.
Proof.
  intros Hreach Hidle Hout s1 s2.
  pose proof (reachable_Inv s Hreach) as HI.
  pose proof (inv_range s HI) as Ha.
  assert (nextIndex <> activeIndex s) as Hne by lia.
  assert (Js.index (slides s) nextIndex = None) as Hundef
    by (apply index_None; unfold slideCount in Hout; lia).
  destruct (goTo_undefined s nextIndex Hidle Hne Hundef)
    as (_ & Hb1 & Ha1 & Hs1 & Ht1).
  fold s1 in Hb1, Ha1, Hs1, Ht1.
  destruct (index_Some (slides s) (activeIndex s) Ha) as [o Ho].
  set (s1' := set_timeline None s1).
  assert (slides s1' = slides s /\ activeIndex s1' = activeIndex s
          /\ isAnimating s1' = true /\ timeline s1' = None)
    as (Hs' & Ha' & Hb' & Ht').
  { subst s1'. rewrite <- Hs1, <- Ha1, <- Hb1. by destruct s1. }
  assert (complete s1 = onComplete nextIndex s1') as Ec.
  { unfold complete, bind, get, modify. by rewrite Ht1. }
  destruct (onComplete_undefined s1' nextIndex) as (Hthrew & B & A & T & _);
    [by rewrite Hs'|].
  pose proof (onComplete_undefined_slides s1' nextIndex o) as Hsl.
  rewrite Hs', Ha' in Hsl. specialize (Hsl Ho Hundef).
  subst s2. unfold step, handler, threw, exec in *. rewrite Ec.
  split; [exact Hthrew|]. split; [|by rewrite B, A, T, Hb', Ha', Ht'].
  unfold count_active. rewrite Hsl. apply marks_none.
  intros i sl. destruct (decide (i = Z.to_nat (activeIndex s))) as [->|Hi].
  - rewrite list_lookup_alter_eq. intros H.
    by apply fmap_Some in H as (x & _ & ->).
  - rewrite list_lookup_alter_ne by done. intros H.
    rewrite (inv_marks s HI i sl H). apply Z.eqb_neq. lia.
Qed.

Lemma out_of_range_completion_deactivates_witness :
  let s := carousel (sample_wrap 3) true in
  count_active s = 1%nat
  /\ count_active (step (exec (goTo 3) s) timeline_completes) = 0%nat.
Proof.
  cbv zeta. split; [vm_compute; reflexivity|].
  refine (proj1 (proj2 (out_of_range_completion_deactivates
                          (carousel (sample_wrap 3) true) 3 _ _ _))).
  - apply (reachable_init (sample_wrap 3) true). vm_compute. reflexivity.
  - vm_compute. reflexivity.
  - right. vm_compute. congruence.
Defined.

(** X11. The set-up makes the first item that carries the class
    "is--active" the active slide, and the first item of all when none
    carries it; the class then sits on that slide only, however many items
    carried it in the markup. *)
Theorem init_activates_first_marked (w : Wrap) (reduce : bool) (s : State)
    (items : list ItemMarkup) :
  init w reduce = Some s ->
  w_list w = Some items ->
  activeIndex s
  = match list_find (fun it => m_active it = true) items with
    | Some (k, _) => Z.of_nat k
    | None => 0
    end
  /\ forall i sl, slides s !! i = Some sl ->
       is_active sl = (Z.of_nat i =? activeIndex s).
Proof.
  intros Hinit Hl.
  destruct (init_fields _ _ _ Hinit) as (items' & Hl' & _ & Ha & _).
  rewrite Hl in Hl'. injection Hl' as <-.
  split; [|apply (inv_marks s (Inv_init _ _ _ Hinit))].
  rewrite Ha. unfold findIndex.
  destruct (findIndex_from_spec items 0)
    as [[-> Hnone]|(k & it & -> & Hk & Hit & Hbefore)].
  - cbn. destruct (list_find _ items) as [[k it]|] eqn:E; [|done].
    apply list_find_Some in E as (Hk & Hit & _).
    rewrite (Hnone k it Hk) in Hit. done.
  - destruct (Z.ltb_spec (0 + Z.of_nat k) 0); [lia|].
    assert (list_find (fun it => m_active it = true) items = Some (k, it))
      as ->; [|lia].
    apply list_find_Some. split; [done|]. split; [done|].
    intros j y Hj Hlt. rewrite (Hbefore j y Hlt Hj). done.
Qed.

Lemma init_activates_first_marked_witness :
  let items := [mkItem false None None []; mkItem true None None [];
                mkItem true None None []] in
  let s := carousel (mkWrap (Some items) true true None None None None)
                    false in
  activeIndex s = 1 /\ is_active <$> slides s = [false; true; false].
Proof.
  cbv zeta.
  destruct (init_activates_first_marked
              (mkWrap (Some [mkItem false None None [];
                             mkItem true None None [];
                             mkItem true None None []])
                      true true None None None None)
              false
              (carousel (mkWrap (Some [mkItem false None None [];
                                       mkItem true None None [];
                                       mkItem true None None []])
                                true true None None None None) false)
              [mkItem false None None []; mkItem true None None [];
               mkItem true None None []]
              ltac:(vm_compute; reflexivity) ltac:(reflexivity))
    as [Ha _].
  split; [rewrite Ha|]; vm_compute; reflexivity.
Defined.

(** X12. A wrap without a list, or whose list has no item, sets up
    nothing. Any other wrap gives a carousel with one slide per item, at
    rest and in view, with no transition requested, the total counter
    showing the number of items, and a delayed call for the configured
    duration pending exactly when autoplay is enabled. *)
Theorem init_outcome (w : Wrap) (reduce : bool) :
  match w_list w with
  | None | Some [] => init w reduce = None
  | Some items =>
      exists s,
        init w reduce = Some s
        /\ slideCount s = Z.of_nat (length items)
        /\ isAnimating s = false /\ timeline s = None /\ isInView s = true
        /\ transitions s = []
        /\ elTotal s = match w_total w with
                       | Some _ => Some (Js.String_ (Z.of_nat (length items)))
                       | None => None
                       end
        /\ autoplayCall s
           = if read_autoplayEnabled (w_autoplay w)
             then Some (mkTimer 0 (read_autoplayDuration
                                     (w_autoplay_duration w)) false)
             else None
  end.
Proof.
  destruct (w_list w) as [[|it0 items']|] eqn:Hl; unfold init; rewrite Hl;
    [done| |done].
  eexists. split; [reflexivity|].
  set (s := exec _ _).
  assert (init w reduce = Some s) as Hinit by (unfold init; by rewrite Hl).
  destruct (init_spec _ _ _ Hinit)
    as (items & Hl' & Hlen & _ & _ & Hb & Ht & _ & Hv & He & Hd & Hc & Hs & _).
  destruct (init_fields _ _ _ Hinit)
    as (items2 & Hl2 & _ & _ & _ & _ & _ & Het & _).
  rewrite Hl in Hl', Hl2. injection Hl' as <-. injection Hl2 as <-.
  unfold slideCount. rewrite Hlen, Hc, He, Hd.
  repeat split; try done.
  unfold transitions, still in *. clear - Hs.
  induction (trace s) as [|c tr IH]; [done|].
  apply Forall_cons in Hs as [Hc Hs]. cbn. rewrite Hc. by apply IH.
Qed.

(** ** Waiting for the libraries *)

Lemma waitForGsap_result window : forall tries waited,
  (exists k, waitForGsap window waited tries = cb_runs k
     /\ (waited <= k)%nat /\ Z.of_nat k <= Z.of_nat waited + Z.max tries 0
     /\ ready (window k) = true
     /\ forall j, (waited <= j < k)%nat -> ready (window j) = false)
  \/ (waitForGsap window waited tries = warns (waited + Z.to_nat tries)
      /\ forall j, (waited <= j <= waited + Z.to_nat tries)%nat ->
                   ready (window j) = false).
Proof.
  intros tries waited. funelim (waitForGsap window waited tries).
  - left. exists waited. split; [done|]. split; [done|]. split; [lia|].
    split; [done|]. intros j Hj. lia.
  - right. replace (Z.to_nat tries) with 0%nat by lia. rewrite Nat.add_0_r.
    split; [done|]. intros j Hj. by replace j with waited by lia.
  - match goal with IH : _ \/ _ |- _ =>
      destruct IH as [(k & E & Hk & Hmax & Hr & Hnot)|[E Hnot]]
    end.
    + left. exists k. split; [done|]. split; [lia|].
      split; [lia|]. split; [done|].
      intros j Hj. destruct (decide (j = waited)) as [->|]; [done|].
      apply Hnot. lia.
    + right.
      replace (S waited + Z.to_nat (tries - 1))%nat
        with (waited + Z.to_nat tries)%nat in * by lia.
      split; [done|].
      intros j Hj. destruct (decide (j = waited)) as [->|]; [done|].
      apply Hnot. lia.
Qed.

(** X13. [waitForGsap] runs the callback after [k] timeouts exactly when
    the [k]-th check is the first one that finds all three libraries and
    it is one of the checks the tries allow: the callback is never run
    without the libraries, and never later than the first moment a check
    could see them. *)
Theorem waitForGsap_runs_at_first_ready (window : nat -> Libs)
    (waited : nat) (tries : Z) (k : nat) :
  waitForGsap window waited tries = cb_runs k
  <-> (waited <= k <= waited + Z.to_nat tries)%nat
      /\ ready (window k) = true
      /\ forall j, (waited <= j < k)%nat -> ready (window j) = false.
Proof.
  destruct (waitForGsap_result window tries waited)
    as [(k' & E & Hk & Hmax & Hr & Hnot)|[E Hnot]]; rewrite E; split.
  - intros [= <-]. split; [lia|done].
  - intros (Hk2 & Hr2 & Hnot2). f_equal.
    destruct (Nat.lt_trichotomy k' k) as [Hlt|[->|Hlt]]; [|done|].
    + rewrite Hnot2 in Hr by lia. done.
    + rewrite Hnot in Hr2 by lia. done.
  - done.
  - intros (Hk2 & Hr2 & _). rewrite Hnot in Hr2 by lia. done.
Qed.

(** X14. [waitForGsap] warns and gives up exactly when every check the
    tries allow finds a library missing, and then after as many timeouts
    as there were tries. The call made by [init], with its 80 tries, runs
    the callback after 80 timeouts at most, and warns only after 80
    timeouts, when 81 checks in a row have failed. *)
Theorem waitForGsap_gives_up_after_tries (window : nat -> Libs)
    (waited : nat) (tries : Z) :
  (forall k, waitForGsap window waited tries = warns k
     <-> k = (waited + Z.to_nat tries)%nat
         /\ forall j, (waited <= j <= k)%nat -> ready (window j) = false)
  /\ (forall k, waitForGsap_from_init window = cb_runs k -> (k <= 80)%nat)
  /\ (forall k, waitForGsap_from_init window = warns k ->
        k = 80%nat
        /\ forall j, (j <= 80)%nat -> ready (window j) = false).
Proof.
  split; [|split].
  - intros k.
    destruct (waitForGsap_result window tries waited)
      as [(k' & E & Hk & Hmax & Hr & Hnot)|[E Hnot]]; rewrite E; split.
    + done.
    + intros [-> Hall]. rewrite Hall in Hr by lia. done.
    + by intros [= <-].
    + by intros [-> _].
  - intros k. unfold waitForGsap_from_init.
    destruct (waitForGsap_result window 80 0)
      as [(k' & E & Hk & Hmax & Hr & Hnot)|[E Hnot]]; rewrite E; [|done].
    intros [= <-]. lia.
  - intros k. unfold waitForGsap_from_init.
    destruct (waitForGsap_result window 80 0)
      as [(k' & E & Hk & Hmax & Hr & Hnot)|[E Hnot]]; rewrite E; [done|].
    intros [= <-]. split; [reflexivity|].
    intros j Hj. apply Hnot. cbn. lia.
Qed.

(** ** The two-step navigation *)

Lemma nav_toggle_flips status :
  Nav.isActive (Nav.toggleNav status) = negb (Nav.isActive status).
Proof. unfold Nav.toggleNav. by destruct (Nav.isActive status) eqn:E. Qed.

(** X15. However the status attribute started out, after [n] clicks on
    toggle buttons the navigation is active exactly when an odd number of
    them came on top of an inactive navigation, or an even number on top
    of an active one: two toggles always cancel. *)
Theorem nav_toggle_parity (status : string) (n : nat) :
  Nav.isActive (Nav.run status (replicate n Nav.toggle_click))
  = xorb (Nav.isActive status) (Nat.odd n).
Proof.
  revert status. induction n as [|n IH]; intros status.
  - cbn. by destruct (Nav.isActive status).
  - cbn [replicate Nav.run fold_left]. fold (Nav.run (Nav.handler status Nav.toggle_click) (replicate n Nav.toggle_click)).
    rewrite IH. cbn [Nav.handler]. rewrite nav_toggle_flips, Nat.odd_succ.
    rewrite <- Nat.negb_odd.
    by destruct (Nav.isActive status), (Nat.odd n).
Qed.

(** X16. Over any run of events without a click on a toggle button, the
    navigation ends active exactly when it started active and no close
    click and no Escape key came: neither of them, and no other key, ever
    opens the navigation. *)
Theorem nav_only_toggle_opens (status : string) (es : list Nav.Event) :
  forallb (fun e => negb (Nav.isToggle e)) es = true ->
  Nav.isActive (Nav.run status es)
  = Nav.isActive status && forallb (fun e => negb (Nav.closes e)) es.
Proof.
  revert status. induction es as [|e es IH]; intros status Hes.
  - cbn. by rewrite andb_true_r.
  - cbn in Hes. apply andb_true_iff in Hes as [He Hes].
    cbn [Nav.run fold_left forallb]. fold (Nav.run (Nav.handler status e) es).
    rewrite (IH _ Hes). destruct e as [| |key]; [done| |].
    + cbn. by rewrite andb_false_r.
    + cbn. destruct (String.eqb key "Escape"); cbn; [|done].
      destruct (Nav.isActive status) eqn:E; cbn; [done|]. by rewrite E.
Qed.

Lemma nav_only_toggle_opens_witness :
  Nav.isActive
    (Nav.run "active" [Nav.keydown "Enter"; Nav.keydown "Escape";
                       Nav.keydown "Enter"])
  = false.
Proof.
  rewrite (nav_only_toggle_opens "active"
             [Nav.keydown "Enter"; Nav.keydown "Escape"; Nav.keydown "Enter"]
             ltac:(reflexivity)).
  reflexivity.
Defined.

(** ** Safety of the carousel *)

(** X17. In every state a carousel can reach, [activeIndex] is a slide
    position and no listener or callback throws, whatever event comes:
    every [slides[...]] the code reads there is defined. *)
Theorem reachable_carousel_never_throws (s : State) (e : Event) :
  reachable s ->
  0 <= activeIndex s < slideCount s
  /\ threw (handler e) s = false.
Proof.
  intros Hreach. pose proof (reachable_Inv s Hreach) as HI.
  split; [apply (inv_range s HI)|apply (Inv_step s e HI)].
Qed.

Lemma reachable_carousel_never_throws_witness :
  let s := run (carousel (sample_wrap 2) true)
               [click_next; click_next; scroll_leave] in
  threw (handler timeline_completes) s = false.
Proof.
  cbv zeta.
  refine (proj2 (reachable_carousel_never_throws
                   (run (carousel (sample_wrap 2) true)
                        [click_next; click_next; scroll_leave])
                   timeline_completes _)).
  apply reachable_run. apply (reachable_init (sample_wrap 2) true).
  vm_compute. reflexivity.
Defined.

(** X18. In every state a carousel can reach, [isAnimating] is true
    exactly while a timeline is in flight, and the slide that timeline
    leads to is a slide position other than the active one. *)
Theorem isAnimating_iff_timeline_in_flight (s : State) :
  reachable s ->
  (isAnimating s = true <-> timeline s <> None)
  /\ forall t, timeline s = Some t ->
       0 <= t < slideCount s /\ t <> activeIndex s.
Proof.
  intros Hreach. pose proof (reachable_Inv s Hreach) as HI.
  split; [split|].
  - apply (inv_busy s HI).
  - destruct (timeline s) as [t|] eqn:Ht; [|done].
    intros _. apply (inv_timeline s HI t Ht).
  - intros t Ht. apply (inv_timeline s HI t Ht).
Qed.

Lemma isAnimating_iff_timeline_in_flight_witness :
  let s := run (carousel (sample_wrap 3) false)
               [click_prev; time_passes 200; click_next] in
  timeline s = Some 2
  /\ (isAnimating s = true <-> timeline s <> None).
Proof.
  cbv zeta. split; [vm_compute; reflexivity|].
  refine (proj1 (isAnimating_iff_timeline_in_flight
                   (run (carousel (sample_wrap 3) false)
                        [click_prev; time_passes 200; click_next]) _)).
  apply reachable_run. apply (reachable_init (sample_wrap 3) false).
  vm_compute. reflexivity.
Defined.

(** ** Numeric attribute values *)

Lemma lit_cons c s : Js.lit (String c s) = N_of_ascii c :: Js.lit s.
Proof. reflexivity. Qed.

Lemma digits_of_uint_acc (d : Decimal.uint) : forall acc : positive,
  fold_left (fun acc d => 10 * acc + (Z.of_N d - 48))
            (Js.lit (NilEmpty.string_of_uint d)) (Z.pos acc)
  = Z.pos (Pos.of_uint_acc d acc).
Proof.
  induction d; intros acc; cbn [NilEmpty.string_of_uint Pos.of_uint_acc];
    [done|..]; rewrite lit_cons; cbn [fold_left];
    rewrite <- IHd; f_equal; cbn; lia.
Qed.

Lemma digits_of_uint (d : Decimal.uint) :
  Js.mathInt (Js.lit (NilEmpty.string_of_uint d)) = Z.of_N (Pos.of_uint d).
Proof.
  unfold Js.mathInt.
  induction d; cbn [NilEmpty.string_of_uint Pos.of_uint]; [done|..];
    rewrite lit_cons; cbn [fold_left];
    [exact IHd|..]; cbn [Z.of_N]; rewrite <- digits_of_uint_acc;
    reflexivity.
Qed.

Lemma digits_all (d : Decimal.uint) (rest : Js.str) :
  Js.digitsPrefix (Js.lit (NilEmpty.string_of_uint d) ++ rest)
  = Js.lit (NilEmpty.string_of_uint d) ++ Js.digitsPrefix rest.
Proof.
  induction d; cbn [NilEmpty.string_of_uint]; [done|..];
    rewrite lit_cons; cbn [app Js.digitsPrefix];
    rewrite IHd; reflexivity.
Qed.

Lemma to_uint_digits (p : positive) :
  exists c s, NilEmpty.string_of_uint (Pos.to_uint p) = String c s
              /\ Js.isDigit (N_of_ascii c) = true.
Proof.
  pose proof (DecimalPos.Unsigned.of_to p) as H.
  destruct (Pos.to_uint p); [done|..]; cbn; eauto.
Qed.

Lemma parseInt_uint (p : positive) (rest : Js.str) :
  Js.digitsPrefix rest = [] ->
  Js.parseInt (Js.lit (NilEmpty.string_of_uint (Pos.to_uint p)) ++ rest)
  = Js.Num (Z.pos p)
  /\ Js.parseInt (Js.minus_sign
                    :: Js.lit (NilEmpty.string_of_uint (Pos.to_uint p)) ++ rest)
     = Js.Num (Z.neg p).
Proof.
  intros Hrest.
  pose proof (digits_all (Pos.to_uint p) rest) as Hall.
  pose proof (digits_of_uint (Pos.to_uint p)) as Hval.
  rewrite DecimalPos.Unsigned.of_to in Hval. rewrite Hrest, app_nil_r in Hall.
  destruct (to_uint_digits p) as (c & s & E & Hc).
  assert (Js.isWhiteSpace (N_of_ascii c) = false
          /\ Js.isSign (N_of_ascii c) = false
          /\ (N_of_ascii c =? Js.minus_sign)%N = false) as (Hw & Hs & Hm).
  { unfold Js.isDigit, Js.isWhiteSpace, Js.isSign, Js.plus_sign,
      Js.minus_sign in *.
    apply andb_true_iff in Hc as [H1%N.leb_le H2%N.leb_le].
    repeat split.
    - repeat (apply orb_false_iff; split);
        try (apply andb_false_iff; left; apply N.leb_gt; lia);
        try (apply andb_false_iff; right; apply N.leb_gt; lia);
        apply N.eqb_neq; lia.
    - apply orb_false_iff; split; apply N.eqb_neq; lia.
    - apply N.eqb_neq; lia. }
  rewrite E, lit_cons in *. cbn [app] in *.
  split.
  - rewrite parseInt_cons_other, Hs, Hm by done.
    rewrite Hall. cbv beta iota. rewrite Hval. cbn [Z.of_N]. f_equal.
  - rewrite parseInt_cons_other by done.
    replace (Js.isSign Js.minus_sign) with true by reflexivity.
    replace (Js.minus_sign =? Js.minus_sign)%N with true by reflexivity.
    rewrite Hall. cbv beta iota. rewrite Hval. cbn [Z.of_N]. f_equal.
Qed.

(** X19. When the "data-autoplay-duration" attribute starts with the
    decimal numeral of an integer n that a JS number holds exactly, and
    goes on with nothing or with something that is not a digit (a unit,
    say), the autoplay duration is n milliseconds, except that 0 gives
    the default of 4000. *)
Theorem numeric_duration_is_read (n : Z) (rest : Js.str) :
  Z.abs n <= 2 ^ 53 ->
  Js.digitsPrefix rest = [] ->
  Js.parseInt (Js.lit (Js.String_ n) ++ rest) = Js.Num n
  /\ read_autoplayDuration (Some (Js.lit (Js.String_ n) ++ rest))
     = if n =? 0 then 4000 else n.
Proof.
  intros _ Hrest.
  assert (Js.parseInt (Js.lit (Js.String_ n) ++ rest) = Js.Num n) as H.
  { unfold Js.String_, Z.to_int, NilZero.string_of_int.
    destruct n as [|p|p].
    - change (Js.lit (NilZero.string_of_uint Decimal.zero) ++ rest)
        with (48%N :: rest).
      rewrite parseInt_cons_other by reflexivity.
      replace (Js.isSign 48) with false by reflexivity.
      cbn [Js.digitsPrefix].
      replace (Js.isDigit 48) with true by reflexivity.
      by rewrite Hrest.
    - destruct (to_uint_digits p) as (c & s & E & _).
      unfold NilZero.string_of_uint.
      destruct (Pos.to_uint p) eqn:Ep; [done|..];
        rewrite <- Ep; by apply parseInt_uint.
    - destruct (to_uint_digits p) as (c & s & E & _).
      unfold NilZero.string_of_uint.
      destruct (Pos.to_uint p) eqn:Ep; [done|..];
        rewrite <- Ep, lit_cons; by apply parseInt_uint. }
  split; [done|].
  unfold read_autoplayDuration. cbn [Js.ToString_attr]. by rewrite H.
Qed.

Lemma numeric_duration_is_read_witness :
  read_autoplayDuration (Some (Js.lit (Js.String_ 2500) ++ Js.lit "ms"))
  = 2500.
Proof.
  apply (proj2 (numeric_duration_is_read 2500 (Js.lit "ms")
                  ltac:(vm_compute; congruence) ltac:(reflexivity))).
Defined.
